(** * ferret: a shallow embedding of the tunnel broker's validation,
    jump-host resolution, statistics framing and relay accounting.

    Sources embedded (paths under src/):
    - unnamed/part_000          Address, NewAddress, ValidateAddress
    - internal/host.go          Host.Validate, Host.Dial, freePort,
                                validateJumpHosts
    - internal/statistics.go    StartStatsTunnel, statsBroadcaster,
                                writeUpdate, receiveStats,
                                and the Tunnel code stored after it
                                (Tunnel.Validate, Tunnel.copy)
    - unnamed/part_001          the older Tunnel.Validate
    - unnamed/part_002          Configuration.Validate
    - unnamed/part_003          defaultValues, parseCommandLine, parameter,
                                parameterInt (the ferret command line)

    Go strings of the configuration are modelled as Rocq [string]s (byte
    strings); the bytes of the statistics wire protocol as [list Z] with
    every element in [0, 256). Go [int] and [int64] are 64-bit integers,
    kept as [Z] with their range written out where it matters. *)

From Stdlib Require Import ZArith Lia Ascii String List Bool.
From stdpp Require Import base gmap strings list.
From Stdlib Require DecimalFacts DecimalN.

Import ListNotations.
Open Scope Z_scope.

(* ------------------------------------------------------------------ *)
(** ** Go string helpers *)
(* ------------------------------------------------------------------ *)

Module GoStr.

(** [unicode.IsSpace] restricted to single bytes: '\t', '\n', '\v', '\f',
    '\r' and ' '. (strings.TrimSpace also strips U+0085 and U+00A0, which
    are multi-byte sequences in UTF-8 and are not modelled.) *)
Definition is_space (c : ascii) : bool :=
  let n := nat_of_ascii c in
  (Nat.eqb n 32 || (Nat.leb 9 n && Nat.leb n 13))%bool.

Fixpoint trim_left (s : string) : string :=
  match s with
  | EmptyString => EmptyString
  | String c s' => if is_space c then trim_left s' else s
  end.

Definition trim_right (s : string) : string :=
  string_of_list_ascii
    (rev (list_ascii_of_string (trim_left (string_of_list_ascii
       (rev (list_ascii_of_string s)))))).

(** strings.TrimSpace *)
Definition trim_space (s : string) : string := trim_right (trim_left s).

(** strings.Split(s, sep) for a one-byte separator: n separators give
    n+1 fields. *)
Fixpoint split_go (sep : ascii) (s : string) : list string :=
  match s with
  | EmptyString => [EmptyString]
  | String c s' =>
      if Ascii.eqb c sep then EmptyString :: split_go sep s'
      else match split_go sep s' with
           | f :: fs => String c f :: fs
           | [] => [String c EmptyString]
           end
  end.

(** Decimal digits of a [Decimal.uint] as text. *)
Fixpoint uint_to_string (d : Decimal.uint) : string :=
  match d with
  | Decimal.Nil => EmptyString
  | Decimal.D0 d => String "0" (uint_to_string d)
  | Decimal.D1 d => String "1" (uint_to_string d)
  | Decimal.D2 d => String "2" (uint_to_string d)
  | Decimal.D3 d => String "3" (uint_to_string d)
  | Decimal.D4 d => String "4" (uint_to_string d)
  | Decimal.D5 d => String "5" (uint_to_string d)
  | Decimal.D6 d => String "6" (uint_to_string d)
  | Decimal.D7 d => String "7" (uint_to_string d)
  | Decimal.D8 d => String "8" (uint_to_string d)
  | Decimal.D9 d => String "9" (uint_to_string d)
  end.

(** fmt's %d on an integer. *)
Definition itoa (z : Z) : string :=
  if z <? 0 then String "-" (uint_to_string (N.to_uint (Z.to_N (- z))))
  else uint_to_string (N.to_uint (Z.to_N z)).

Definition digit_val (c : ascii) : option N :=
  let n := nat_of_ascii c in
  if (Nat.leb 48 n && Nat.leb n 57)%bool then Some (N.of_nat (n - 48)) else None.

Fixpoint digits_acc (acc : N) (s : string) : option N :=
  match s with
  | EmptyString => Some acc
  | String c s' =>
      match digit_val c with
      | Some d => digits_acc (10 * acc + d)%N s'
      | None => None
      end
  end.

Definition int64_min : Z := - 2 ^ 63.
Definition int64_max : Z := 2 ^ 63 - 1.

(** strconv.Atoi on a 64-bit platform: an optional sign, then one or more
    decimal digits; a value outside the int64 range is an error. *)
Definition atoi (s : string) : option Z :=
  let '(neg, body) :=
    match s with
    | String "-" r => (true, r)
    | String "+" r => (false, r)
    | _ => (false, s)
    end in
  match body with
  | EmptyString => None
  | _ =>
      match digits_acc 0 body with
      | None => None
      | Some n =>
          let z := if neg then - Z.of_N n else Z.of_N n in
          if (int64_min <=? z) && (z <=? int64_max) then Some z else None
      end
  end.

(** The character [c] does not occur in [s]. *)
Definition no_char (c : ascii) (s : string) : Prop :=
  Forall (fun ch => ch <> c) (list_ascii_of_string s).

End GoStr.

(* ------------------------------------------------------------------ *)
(** ** Addresses: internal/address.go *)
(* ------------------------------------------------------------------ *)

Module Addr.
Import GoStr.

(** An IP address as returned by net.LookupIP: an IPv4 address or one that
    [To4] cannot convert. *)
Inductive ip :=
  | IPv4 (a b c d : Z)
  | IPv6.

(** net.IP.String for an IPv4 address. *)
Definition ipv4_string (a b c d : Z) : string :=
  itoa a +:+ "." +:+ itoa b +:+ "." +:+ itoa c +:+ "." +:+ itoa d.

(** One decimal octet of a dotted quad as net.ParseIP accepts it: one to
    three digits, no leading zero, at most 255. *)
Definition parse_octet (s : string) : option Z :=
  match s with
  | EmptyString => None
  | String "0" (String _ _) => None
  | _ =>
      if Nat.leb (String.length s) 3 then
        match digits_acc 0 s with
        | Some n => if (n <=? 255)%N then Some (Z.of_N n) else None
        | None => None
        end
      else None
  end.

Definition parse_ipv4 (s : string) : option ip :=
  match split_go "." s with
  | [a; b; c; d] =>
      match parse_octet a, parse_octet b, parse_octet c, parse_octet d with
      | Some a, Some b, Some c, Some d => Some (IPv4 a b c d)
      | _, _, _, _ => None
      end
  | _ => None
  end.

Record Address := mkAddress {
  valid : bool;
  address : string;
  port : Z
}.

(** NewAddress *)
Definition new_address (s : string) : Address := mkAddress false s 0.

(** Address.IsBlank, Address.IsValid, Address.Port *)
Definition is_blank (a : Address) : bool := String.eqb (address a) "".
Definition is_valid (a : Address) : bool := valid a.
Definition get_port (a : Address) : Z := port a.

Section Lookup.

(** The resolver behind net.LookupIP for host names: [None] is a lookup
    error, [Some ips] the addresses found. *)
Variable dns : string -> option (list ip).

(** net.LookupIP: an IP literal is returned as it is, without a query. *)
Definition lookup_ip (host : string) : option (list ip) :=
  match parse_ipv4 host with
  | Some i => Some [i]
  | None => dns host
  end.

(** Address.ValidateAddress(group, name, attr, remote); the messages are
    not modelled, the result is the updated address and the flag. *)
Definition validate_address (remote : bool) (a : Address) : Address * bool :=
  match split_go ":" (address a) with
  | [host; portstr] =>
      (* a.valid = true *)
      let '(addr1, valid1) :=
        match lookup_ip host with
        | None => (address a, remote)   (* !remote: invalid, else a warning *)
        | Some [] => (address a, false)
        | Some (i :: _) =>
            match i with
            | IPv6 => (address a, true)                (* message only *)
            | IPv4 w x y z =>
                if remote then (host, true) else (ipv4_string w x y z, true)
            end
        end in
      match atoi portstr with
      | None => (mkAddress false addr1 (port a), false)
      | Some i =>
          if (i <? 1) || (65536 <? i) then (mkAddress false addr1 (port a), false)
          else (mkAddress valid1 (addr1 +:+ ":" +:+ itoa i) i, valid1)
      end
  | _ => (mkAddress false (address a) (port a), false)
  end.

End Lookup.

(** What net.LookupIP returns: IPv4 addresses have four octets in
    [0, 255]; a resolver whose answers all satisfy this is well-behaved. *)
Definition ip_ok (i : ip) : Prop :=
  match i with
  | IPv4 a b c d => 0 <= a <= 255 /\ 0 <= b <= 255 /\ 0 <= c <= 255 /\ 0 <= d <= 255
  | IPv6 => False
  end.

End Addr.

(* ------------------------------------------------------------------ *)
(** ** Hosts, tunnels and configuration validation *)
(* ------------------------------------------------------------------ *)

Module Config.
Import GoStr Addr.

(** [*Address] pointers: locations of a heap of [Address] objects. Hosts
    and tunnels share these objects (validateJumpHosts hands a host's
    address object to a synthetic tunnel), so the sharing is kept. *)
Definition loc := N.

(** The values of hostKeysMap: the accept-any callback stored under "" and
    the callbacks built by knownhosts.New from a file. *)
Inductive host_key_callback :=
  | AcceptAnyKey
  | KnownHostsFile (path : string).

(** ssh.ClientConfig as Host.Validate builds it. [cc_signer] is the key of
    identityMap whose signer was loaded (nil when absent); [cc_host_key] is
    hostKeysMap[h.KnownHosts] (nil when absent). *)
Record ClientConfig := mkClientConfig {
  cc_user : string;
  cc_signer : option string;
  cc_host_key : option host_key_callback
}.

Record Host := mkHost {
  h_name : string;
  h_address : option loc;
  h_username : string;
  h_identity : string;
  h_passphrase : string;
  h_known_hosts : string;
  h_jump_host : string;
  h_is_host : bool;
  h_is_jump_host : bool;
  h_client : option N;             (* *ssh.Client, nil until Open succeeds *)
  h_config : option ClientConfig
}.

Record Tunnel := mkTunnel {
  t_name : string;
  t_local : option loc;
  t_host : string;
  t_forward : option loc
}.

(** Outcome of the file checks (os.Stat, reading, decoding).
    [FileStatError] is an os.Stat error other than not-exist (ENOTDIR,
    EACCES on a parent directory, ...): fi is then nil, and Host.Validate
    panics at fi.IsDir(). [FilePermission] and [FileOtherError] are the
    errors of knownhosts.New and os.ReadFile once os.Stat has succeeded. *)
Inductive file_result :=
  | FileOk
  | FileNotFound
  | FileStatError
  | FileIsDir
  | FilePermission
  | FileOtherError
  | FileUndecodable.

(** Lines printed during validation, one constructor per Printf. *)
Inductive msg :=
  | MsgHostNameBlank
  | MsgHostRedefined (name : string)
  | MsgHostDefaultUser (name user : string)
  | MsgKnownHostsError (name path : string) (r : file_result)
  | MsgIdentityMissing (name : string)
  | MsgIdentityError (name path : string) (r : file_result)
  | MsgHostNeedsAddress (name : string)
  | MsgJumpSelf (name : string)
  | MsgHostValidated (name : string)
  | MsgTunnelNameBlank
  | MsgTunnelRedefined (name : string)
  | MsgTunnelNeedsForward (name : string)
  | MsgTunnelDefaultLocal (name : string) (port : Z)
  | MsgTunnelNoLocal (name : string)
  | MsgTunnelMissingHost (name : string)
  | MsgTunnelHostUndefined (name host : string)
  | MsgTunnelValidated (name : string)
  | MsgJumpUndefined (name jump : string)
  | MsgMultiHop (name : string)
  | MsgHostUnused (name : string).

(** The package state the validation phase reads and writes: the Hosts and
    Tunnels registries, hostKeysMap, identityMap, the address heap, the
    results the successive freePort calls will give, and the log. *)
Record State := mkState {
  hosts : gmap string Host;
  tunnels : gmap string Tunnel;
  heap : gmap loc Address;
  next_loc : loc;
  host_keys : gmap string host_key_callback;
  identities : gset string;
  free_ports : list (option Z);
  log : list msg
}.

(** The collaborators outside the embedded code: the verbose flag,
    Address.Validate(group, name, attr, remote, local) (the five-argument
    method the current host.go and tunnel code call), and the file system
    behind the known_hosts and identity checks. *)
Record Env := mkEnv {
  env_verbose : bool;
  env_validate : string -> string -> string -> bool -> bool -> Address -> Address * bool;
  env_known_hosts : string -> file_result;
  env_identity : string -> string -> file_result
}.

Definition initial_host_keys : gmap string host_key_callback :=
  {[ "" := AcceptAnyKey ]}.

Definition initial_state (ports : list (option Z)) : State :=
  mkState ∅ ∅ ∅ 0%N initial_host_keys ∅ ports [].

Definition set_hosts (st : State) (m : gmap string Host) : State :=
  mkState m (tunnels st) (heap st) (next_loc st) (host_keys st) (identities st)
    (free_ports st) (log st).
Definition set_tunnels (st : State) (m : gmap string Tunnel) : State :=
  mkState (hosts st) m (heap st) (next_loc st) (host_keys st) (identities st)
    (free_ports st) (log st).
Definition set_heap (st : State) (m : gmap loc Address) : State :=
  mkState (hosts st) (tunnels st) m (next_loc st) (host_keys st) (identities st)
    (free_ports st) (log st).
Definition set_host_keys (st : State) (m : gmap string host_key_callback) : State :=
  mkState (hosts st) (tunnels st) (heap st) (next_loc st) m (identities st)
    (free_ports st) (log st).
Definition set_identities (st : State) (m : gset string) : State :=
  mkState (hosts st) (tunnels st) (heap st) (next_loc st) (host_keys st) m
    (free_ports st) (log st).
Definition set_free_ports (st : State) (ps : list (option Z)) : State :=
  mkState (hosts st) (tunnels st) (heap st) (next_loc st) (host_keys st)
    (identities st) ps (log st).
Definition emit (st : State) (m : msg) : State :=
  mkState (hosts st) (tunnels st) (heap st) (next_loc st) (host_keys st)
    (identities st) (free_ports st) (log st ++ [m]).

(** NewAddress(s): a fresh heap object. *)
Definition alloc_address (st : State) (s : string) : loc * State :=
  (next_loc st,
   mkState (hosts st) (tunnels st) (<[next_loc st := new_address s]> (heap st))
     (N.succ (next_loc st)) (host_keys st) (identities st) (free_ports st) (log st)).

(** [p == nil || p.IsBlank()] for an address pointer. *)
Definition blank_ptr (st : State) (p : option loc) : bool :=
  match p with
  | None => true
  | Some l => match heap st !! l with Some a => is_blank a | None => true end
  end.

(** [p != nil && p.IsValid()] *)
Definition valid_ptr (st : State) (p : option loc) : bool :=
  match p with
  | None => false
  | Some l => match heap st !! l with Some a => is_valid a | None => false end
  end.

(** [p.Validate(group, name, attr, remote, local)] on a non-nil pointer. *)
Definition validate_ptr (E : Env) (group name attr : string) (remote local : bool)
    (l : loc) (st : State) : bool * State :=
  match heap st !! l with
  | Some a =>
      let '(a', ok) := env_validate E group name attr remote local a in
      (ok, set_heap st (<[l := a']> (heap st)))
  | None => (false, st)
  end.

Definition set_h_name (h : Host) (n : string) : Host :=
  mkHost n (h_address h) (h_username h) (h_identity h) (h_passphrase h)
    (h_known_hosts h) (h_jump_host h) (h_is_host h) (h_is_jump_host h)
    (h_client h) (h_config h).
Definition set_h_address (h : Host) (a : option loc) : Host :=
  mkHost (h_name h) a (h_username h) (h_identity h) (h_passphrase h)
    (h_known_hosts h) (h_jump_host h) (h_is_host h) (h_is_jump_host h)
    (h_client h) (h_config h).
Definition set_h_is_host (h : Host) (b : bool) : Host :=
  mkHost (h_name h) (h_address h) (h_username h) (h_identity h) (h_passphrase h)
    (h_known_hosts h) (h_jump_host h) b (h_is_jump_host h)
    (h_client h) (h_config h).

(** Host.Validate(defaultUsername) (internal/host.go). [None] is the panic
    of fi.IsDir() on a nil fi, which ends the program. *)
Definition host_validate (E : Env) (default_user : string) (h : Host) (st : State)
    : option (bool * State) :=
  let name := trim_space (h_name h) in
  let '(v, st) :=
    if String.eqb name "" then (false, emit st MsgHostNameBlank) else (true, st) in
  let '(v, st) :=
    match hosts st !! name with
    | Some _ => (false, emit st (MsgHostRedefined name))
    | None => (v, st)
    end in
  let user0 := trim_space (h_username h) in
  let '(user, st) :=
    if String.eqb user0 "" && env_verbose E
    then (default_user, emit st (MsgHostDefaultUser name default_user))
    else (user0, st) in
  let known0 := trim_space (h_known_hosts h) in
  match
    match host_keys st !! known0 with
    | Some _ => Some (v, st)
    | None =>
        match env_known_hosts E known0 with
        | FileOk =>
            Some (v, set_host_keys st (<[known0 := KnownHostsFile known0]> (host_keys st)))
        | FileStatError => None              (* fi.IsDir() with fi == nil *)
        | r => Some (false, emit st (MsgKnownHostsError name known0 r))
        end
    end with
  | None => None
  | Some (v, st) =>
  let ident := trim_space (h_identity h) in
  let '(v, st) :=
    if String.eqb ident "" then (false, emit st (MsgIdentityMissing name)) else (v, st) in
  match
    if decide (ident ∈ identities st) then Some (v, h_passphrase h, st)
    else
      let r := env_identity E ident (trim_space (h_passphrase h)) in
      (* the passphrase is trimmed once the key file has been read *)
      let pass := match r with
                  | FileOk | FileUndecodable => trim_space (h_passphrase h)
                  | _ => h_passphrase h
                  end in
      match r with
      | FileOk => Some (v, pass, set_identities st ({[ident]} ∪ identities st))
      | FileStatError => None              (* fi.IsDir() with fi == nil *)
      | _ => Some (false, pass, emit st (MsgIdentityError name ident r))
      end
  with
  | None => None
  | Some (v, pass, st) =>
  let jump := h_jump_host h in
  let '(v, st) :=
    if blank_ptr st (h_address h) then (false, emit st (MsgHostNeedsAddress name))
    else match h_address h with
         | Some l =>
             let '(ok, st) :=
               validate_ptr E "host" name "address" (negb (String.eqb jump "")) true l st in
             (v && ok, st)
         | None => (v, st)
         end in
  let '(v, known, st) :=
    if String.eqb jump "" then (v, known0, st)
    else if String.eqb jump name then (false, known0, emit st (MsgJumpSelf name))
    else (v, ""%string, st) in
  let cfg :=
    mkClientConfig user
      (if decide (ident ∈ identities st) then Some ident else None)
      (host_keys st !! known) in
  let st := if env_verbose E && v then emit st (MsgHostValidated name) else st in
  let h' := mkHost name (h_address h) user ident pass known jump
              (h_is_host h) (h_is_jump_host h) (h_client h) (Some cfg) in
  Some (v, set_hosts st (<[name := h']> (hosts st)))
  end
  end.

(** [t.Forward.Port()] *)
Definition port_ptr (st : State) (p : option loc) : Z :=
  match p with
  | Some l => match heap st !! l with Some a => get_port a | None => 0 end
  | None => 0
  end.

(** Tunnel.Validate (the current tunnel code, stored in statistics.go). *)
Definition tunnel_validate (E : Env) (t : Tunnel) (st : State) : bool * State :=
  let name := trim_space (t_name t) in
  let '(v, st) :=
    if String.eqb name "" then (false, emit st MsgTunnelNameBlank) else (true, st) in
  let '(v, st) :=
    match tunnels st !! name with
    | Some _ => (false, emit st (MsgTunnelRedefined name))
    | None => (v, st)
    end in
  let fwd := t_forward t in
  let '(v, st) :=
    if blank_ptr st fwd then (false, emit st (MsgTunnelNeedsForward name))
    else match fwd with
         | Some l =>
             let '(ok, st) := validate_ptr E "tunnel" name "forward address" true false l st in
             (v && ok, st)
         | None => (v, st)
         end in
  let '(local, st) :=
    if blank_ptr st (t_local t) && valid_ptr st fwd then
      let p := port_ptr st fwd in
      let st := emit st (MsgTunnelDefaultLocal name p) in
      let '(l, st) := alloc_address st ("127.0.0.1:" +:+ itoa p) in
      (Some l, st)
    else (t_local t, st) in
  let '(v, st) :=
    if blank_ptr st local then (v, emit st (MsgTunnelNoLocal name))
    else match local with
         | Some l =>
             let '(ok, st) := validate_ptr E "tunnel" name "local address" true false l st in
             (v && ok, st)
         | None => (v, st)
         end in
  let hname := trim_space (t_host t) in
  let '(v, st) :=
    if String.eqb hname "" then (false, emit st (MsgTunnelMissingHost name))
    else match hosts st !! hname with
         | None => (false, emit st (MsgTunnelHostUndefined name hname))
         | Some hh => (v, set_hosts st (<[hname := set_h_is_host hh true]> (hosts st)))
         end in
  let st := if env_verbose E && v then emit st (MsgTunnelValidated name) else st in
  (v, set_tunnels st (<[name := mkTunnel name local hname fwd]> (tunnels st))).

(** freePort(): the next result the operating system gives; [None], or no
    result left, is a failure. *)
Definition free_port (st : State) : option Z * State :=
  match free_ports st with
  | [] => (None, st)
  | r :: rs => (r, set_free_ports st rs)
  end.

(** The body of the loop of validateJumpHosts for the host stored under
    [k]: [inl] continues the loop, [inr] is the [break]. *)
Definition jump_step (E : Env) (k : string) (valid : bool) (st : State)
    : (bool * State) + (bool * State) :=
  match hosts st !! k with
  | None => inl (valid, st)
  | Some h =>
      if negb (String.eqb (h_jump_host h) "") && h_is_host h then
        match hosts st !! h_jump_host h with
        | None => inl (false, emit st (MsgJumpUndefined (h_name h) (h_jump_host h)))
        | Some j =>
            if negb (String.eqb (h_jump_host j) "") then
              inl (false, emit st (MsgMultiHop (h_name h)))
            else
              match free_port st with
              | (None, st) => inr (false, st)
              | (Some p, st) =>
                  let '(l, st) := alloc_address st ("127.0.0.1:" +:+ itoa p) in
                  let jt := mkTunnel (h_name j +:+ " jumphost") (Some l)
                              (h_jump_host h) (h_address h) in
                  let '(_, st) := tunnel_validate E jt st in
                  (* h.Address = jumpTunnel.Local *)
                  let st := set_hosts st
                              (alter (fun h0 => set_h_address h0 (Some l)) k (hosts st)) in
                  inl (valid, st)
              end
        end
      else inl (valid, st)
  end.

(** The loop of validateJumpHosts over the hosts in the (unspecified)
    iteration order [order] of the Go map. *)
Fixpoint jump_loop (E : Env) (order : list string) (valid : bool) (st : State)
    : bool * State :=
  match order with
  | [] => (valid, st)
  | k :: ks =>
      match jump_step E k valid st with
      | inl (v, st) => jump_loop E ks v st
      | inr r => r
      end
  end.

(** validateJumpHosts() *)
Definition validate_jump_hosts (E : Env) (order : list string) (st : State)
    : bool * State :=
  jump_loop E order true st.

(** The loop over c.Hosts; a panic of Host.Validate ends it ([None]). *)
Fixpoint validate_hosts (E : Env) (default_user : string) (hs : list Host)
    (valid : bool) (st : State) : option (bool * State) :=
  match hs with
  | [] => Some (valid, st)
  | h :: hs =>
      match host_validate E default_user h st with
      | Some (ok, st) => validate_hosts E default_user hs (valid && ok) st
      | None => None
      end
  end.

Fixpoint validate_tunnels (E : Env) (ts : list Tunnel) (valid : bool) (st : State)
    : bool * State :=
  match ts with
  | [] => (valid, st)
  | t :: ts =>
      let '(ok, st) := tunnel_validate E t st in
      validate_tunnels E ts (valid && ok) st
  end.

(** The pruning of unused hosts at the end of Configuration.Validate. *)
Definition prune_unused (st : State) : State :=
  let unused := filter (fun kv => negb (h_is_host kv.2 || h_is_jump_host kv.2))
                  (map_to_list (hosts st)) in
  let st := foldl (fun st kv => emit st (MsgHostUnused kv.1)) st unused in
  set_hosts st (filter (fun kv => h_is_host kv.2 || h_is_jump_host kv.2) (hosts st)).

(** The first two loops of Configuration.Validate: every host, then every
    tunnel. *)
Definition validate_entries (E : Env) (default_user : string)
    (hs : list Host) (ts : list Tunnel) (st : State) : option (bool * State) :=
  match validate_hosts E default_user hs true st with
  | Some (v, st) => Some (validate_tunnels E ts v st)
  | None => None
  end.

(** Configuration.Validate(defaultUsername) (unnamed/part_002); [order] is
    the iteration order validateJumpHosts gets from the Hosts map. *)
Definition config_validate (E : Env) (default_user : string)
    (hs : list Host) (ts : list Tunnel) (order : State -> list string)
    (st : State) : option (bool * State) :=
  match validate_entries E default_user hs ts st with
  | Some (v, st) =>
      let '(ok, st) := validate_jump_hosts E (order st) st in
      Some (v && ok, prune_unused st)
  | None => None
  end.

(** What validateJumpHosts relies on in a host record and never changes:
    its name and jump host; isHost is only ever set. *)
Definition host_stable (h h' : Host) : Prop :=
  h_name h' = h_name h /\ h_jump_host h' = h_jump_host h /\
  (h_is_host h = true -> h_is_host h' = true).

(** No host of the map has isJumpHost set. The field is unexported, so
    the YAML loader leaves it false, and host.go never assigns it. *)
Definition no_jump_flag (m : gmap string Host) : Prop :=
  map_Forall (fun _ h => h_is_jump_host h = false) m.

End Config.

(* ------------------------------------------------------------------ *)
(** ** The statistics wire format: encoding/json on []*TunnelStats *)
(* ------------------------------------------------------------------ *)

Module Json.

(** Bytes are [Z]s in [0, 256). *)
Definition byte_ok (b : Z) : Prop := 0 <= b < 256.

Definition b_of (c : ascii) : Z := Z.of_nat (nat_of_ascii c).
Definition bytes_of_string (s : string) : list Z := map b_of (list_ascii_of_string s).

(** *** unicode/utf8 *)

Definition rune_error : Z := 65533.

Definition in_range (lo hi b : Z) : bool := (lo <=? b) && (b <=? hi).
Definition cont (b : Z) : bool := in_range 128 191 b.

(** utf8.DecodeRune: the rune at the head of [s] and its width; an invalid
    sequence gives (RuneError, 1), the empty input (RuneError, 0). *)
Definition decode_rune (s : list Z) : Z * nat :=
  match s with
  | [] => (rune_error, 0%nat)
  | b0 :: rest =>
      if b0 <? 128 then (b0, 1%nat)
      else if in_range 194 223 b0 then
        match rest with
        | b1 :: _ =>
            if cont b1 then ((b0 - 192) * 64 + (b1 - 128), 2%nat) else (rune_error, 1%nat)
        | [] => (rune_error, 1%nat)
        end
      else if in_range 224 239 b0 then
        let lo := if b0 =? 224 then 160 else 128 in
        let hi := if b0 =? 237 then 159 else 191 in
        match rest with
        | b1 :: b2 :: _ =>
            if in_range lo hi b1 && cont b2
            then (((b0 - 224) * 64 + (b1 - 128)) * 64 + (b2 - 128), 3%nat)
            else (rune_error, 1%nat)
        | _ => (rune_error, 1%nat)
        end
      else if in_range 240 244 b0 then
        let lo := if b0 =? 240 then 144 else 128 in
        let hi := if b0 =? 244 then 143 else 191 in
        match rest with
        | b1 :: b2 :: b3 :: _ =>
            if in_range lo hi b1 && cont b2 && cont b3
            then ((((b0 - 240) * 64 + (b1 - 128)) * 64 + (b2 - 128)) * 64 + (b3 - 128), 4%nat)
            else (rune_error, 1%nat)
        | _ => (rune_error, 1%nat)
        end
      else (rune_error, 1%nat)
  end.

(** utf8.EncodeRune; negative runes, surrogates and runes above U+10FFFF
    are written as RuneError. *)
Definition encode_rune (r : Z) : list Z :=
  if (r <? 0) || (1114111 <? r) || in_range 55296 57343 r then [239; 191; 189]
  else if r <? 128 then [r]
  else if r <? 2048 then [192 + r / 64; 128 + r mod 64]
  else if r <? 65536 then [224 + r / 4096; 128 + (r / 64) mod 64; 128 + r mod 64]
  else [240 + r / 262144; 128 + (r / 4096) mod 64; 128 + (r / 64) mod 64;
        128 + r mod 64].

(** A string is valid UTF-8 when DecodeRune never reports an error on it. *)
Fixpoint utf8_ok (fuel : nat) (s : list Z) : bool :=
  match fuel with
  | O => true
  | S f =>
      match s with
      | [] => true
      | _ =>
          let '(c, size) := decode_rune s in
          if (c =? rune_error) && (size =? 1)%nat then false
          else utf8_ok f (drop size s)
      end
  end.

Definition valid_utf8 (s : list Z) : bool := utf8_ok (length s) s.

(** *** Encoding (encodeState.string with HTML escaping, as json.Marshal) *)

Definition hex_digit (n : Z) : Z := if n <? 10 then 48 + n else 87 + n.

(** [\u] followed by four lower-case hex digits *)
Definition u_escape (r : Z) : list Z :=
  [92; 117; hex_digit ((r / 4096) mod 16); hex_digit ((r / 256) mod 16);
   hex_digit ((r / 16) mod 16); hex_digit (r mod 16)].

(** htmlSafeSet for an ASCII byte *)
Definition html_safe (b : Z) : bool :=
  (32 <=? b) && negb (b =? 34) && negb (b =? 92) && negb (b =? 60)
  && negb (b =? 62) && negb (b =? 38).

(** The encoding of one ASCII byte. *)
Definition enc_ascii (b : Z) : list Z :=
  if html_safe b then [b]
  else if (b =? 92) || (b =? 34) then [92; b]
  else if b =? 8 then [92; 98]
  else if b =? 12 then [92; 102]
  else if b =? 10 then [92; 110]
  else if b =? 13 then [92; 114]
  else if b =? 9 then [92; 116]
  else u_escape b.

Fixpoint enc_str (fuel : nat) (s : list Z) : list Z :=
  match fuel with
  | O => []
  | S f =>
      match s with
      | [] => []
      | b :: rest =>
          if b <? 128 then enc_ascii b ++ enc_str f rest
          else
            let '(c, size) := decode_rune s in
            if (c =? rune_error) && (size =? 1)%nat then u_escape rune_error ++ enc_str f rest
            else if (c =? 8232) || (c =? 8233) then u_escape c ++ enc_str f (drop size s)
            else take size s ++ enc_str f (drop size s)
      end
  end.

Definition encode_string (s : list Z) : list Z := [34] ++ enc_str (length s) s ++ [34].

Fixpoint uint_bytes (d : Decimal.uint) : list Z :=
  match d with
  | Decimal.Nil => []
  | Decimal.D0 d => 48 :: uint_bytes d
  | Decimal.D1 d => 49 :: uint_bytes d
  | Decimal.D2 d => 50 :: uint_bytes d
  | Decimal.D3 d => 51 :: uint_bytes d
  | Decimal.D4 d => 52 :: uint_bytes d
  | Decimal.D5 d => 53 :: uint_bytes d
  | Decimal.D6 d => 54 :: uint_bytes d
  | Decimal.D7 d => 55 :: uint_bytes d
  | Decimal.D8 d => 56 :: uint_bytes d
  | Decimal.D9 d => 57 :: uint_bytes d
  end.

(** strconv.AppendInt(v, 10) *)
Definition encode_int (z : Z) : list Z :=
  (if z <? 0 then [45] else []) ++ uint_bytes (N.to_uint (Z.to_N (Z.abs z))).

(** TunnelStats: the exported fields (updateChan is not serialized). *)
Record TunnelStats := mkStats {
  ts_name : list Z;
  ts_connections : Z;          (* int, 64 bits *)
  ts_received : Z;             (* int64 *)
  ts_transmitted : Z           (* int64 *)
}.

Definition json_key (k : string) : list Z := encode_string (bytes_of_string k) ++ [58].

Definition encode_stats (t : TunnelStats) : list Z :=
  [123] ++ json_key "name" ++ encode_string (ts_name t) ++ [44]
  ++ json_key "connections" ++ encode_int (ts_connections t) ++ [44]
  ++ json_key "received" ++ encode_int (ts_received t) ++ [44]
  ++ json_key "transmitted" ++ encode_int (ts_transmitted t) ++ [125].

Fixpoint join_elems (l : list (list Z)) : list Z :=
  match l with
  | [] => []
  | [x] => x
  | x :: xs => x ++ [44] ++ join_elems xs
  end.

(** json.Marshal(tunnelStats) for a non-nil slice of non-nil pointers. *)
Definition marshal (l : list TunnelStats) : list Z :=
  [91] ++ join_elems (map encode_stats l) ++ [93].

(** *** Decoding (the scanner and decodeState of json.Unmarshal) *)

#[warnings="-register-all"]
Inductive jvalue :=
  | JNull
  | JBool (b : bool)
  | JNumber (lit : list Z)
  | JString (s : list Z)
  | JArray (vs : list jvalue)
  | JObject (kvs : list (list Z * jvalue)).

Definition is_ws (b : Z) : bool := (b =? 32) || (b =? 9) || (b =? 10) || (b =? 13).

Fixpoint skip_ws (s : list Z) : list Z :=
  match s with
  | b :: r => if is_ws b then skip_ws r else s
  | [] => []
  end.

Definition hex_val (b : Z) : option Z :=
  if in_range 48 57 b then Some (b - 48)
  else if in_range 97 102 b then Some (b - 87)
  else if in_range 65 70 b then Some (b - 55)
  else None.

(** getu4 on the four bytes after [\u] *)
Definition get4 (s : list Z) : option Z :=
  match s with
  | a :: b :: c :: d :: _ =>
      match hex_val a, hex_val b, hex_val c, hex_val d with
      | Some a, Some b, Some c, Some d => Some (((a * 16 + b) * 16 + c) * 16 + d)
      | _, _, _, _ => None
      end
  | _ => None
  end.

Definition is_surrogate (r : Z) : bool := in_range 55296 57343 r.

(** utf16.DecodeRune; [None] is the replacement result. *)
Definition utf16_decode (r1 r2 : Z) : option Z :=
  if in_range 55296 56319 r1 && in_range 56320 57343 r2
  then Some ((r1 - 55296) * 1024 + (r2 - 56320) + 65536)
  else None.

(** One step of the string scanner and unquote: the end of the literal,
    decoded bytes and the remaining input, or a syntax error. *)
Inductive sstep :=
  | SEnd (rest : list Z)
  | SChunk (out rest : list Z)
  | SErr.

Definition escape_step (s : list Z) : sstep :=
  match s with
  | [] => SErr
  | e :: r =>
      if e =? 34 then SChunk [34] r
      else if e =? 92 then SChunk [92] r
      else if e =? 47 then SChunk [47] r
      else if e =? 98 then SChunk [8] r
      else if e =? 102 then SChunk [12] r
      else if e =? 110 then SChunk [10] r
      else if e =? 114 then SChunk [13] r
      else if e =? 116 then SChunk [9] r
      else if e =? 117 then
        match get4 r with
        | None => SErr
        | Some rr =>
            let r2 := drop 4 r in
            if is_surrogate rr then
              match r2 with
              | 92 :: 117 :: r3 =>
                  match get4 r3 with
                  | Some rr1 =>
                      match utf16_decode rr rr1 with
                      | Some d => SChunk (encode_rune d) (drop 4 r3)
                      | None => SChunk (encode_rune rune_error) r2
                      end
                  | None => SChunk (encode_rune rune_error) r2
                  end
              | _ => SChunk (encode_rune rune_error) r2
              end
            else SChunk (encode_rune rr) r2
        end
      else SErr
  end.

Definition str_step (s : list Z) : sstep :=
  match s with
  | [] => SErr
  | b :: r =>
      if b =? 34 then SEnd r
      else if b =? 92 then escape_step r
      else if b <? 32 then SErr
      else if b <? 128 then SChunk [b] r
      else let '(rr, size) := decode_rune s in SChunk (encode_rune rr) (drop size s)
  end.

(** The body of a string literal after its opening quote. *)
Fixpoint str_body (fuel : nat) (s : list Z) : option (list Z * list Z) :=
  match fuel with
  | O => None
  | S f =>
      match str_step s with
      | SEnd r => Some ([], r)
      | SChunk out r =>
          match str_body f r with
          | Some (d, r') => Some (out ++ d, r')
          | None => None
          end
      | SErr => None
      end
  end.

Definition is_digit (b : Z) : bool := in_range 48 57 b.

Fixpoint span_digits (s : list Z) : list Z * list Z :=
  match s with
  | b :: r =>
      if is_digit b then let '(ds, r') := span_digits r in (b :: ds, r') else ([], s)
  | [] => ([], [])
  end.

(** One or more digits. *)
Definition digits1 (s : list Z) : option (list Z * list Z) :=
  match span_digits s with
  | ([], _) => None
  | (ds, r) => Some (ds, r)
  end.

(** The optional fraction and exponent of a number literal. *)
Definition frac_exp (s : list Z) : option (list Z * list Z) :=
  let fr :=
    match s with
    | 46 :: r => match digits1 r with Some (ds, r') => Some (46 :: ds, r') | None => None end
    | _ => Some ([], s)
    end in
  match fr with
  | None => None
  | Some (f, r) =>
      match r with
      | e :: r1 =>
          if (e =? 101) || (e =? 69) then
            let '(sg, r2) :=
              match r1 with
              | c :: r2 => if (c =? 43) || (c =? 45) then ([c], r2) else ([], r1)
              | [] => ([], r1)
              end in
            match digits1 r2 with
            | Some (ds, r3) => Some (f ++ [e] ++ sg ++ ds, r3)
            | None => None
            end
          else Some (f, r)
      | [] => Some (f, r)
      end
  end.

(** A number literal: an optional minus, then 0 or a non-zero digit
    followed by digits, then an optional fraction and exponent. *)
Definition parse_number (s : list Z) : option (list Z * list Z) :=
  let '(sg, s1) := match s with 45 :: r => ([45], r) | _ => ([], s) end in
  let int_part :=
    match s1 with
    | 48 :: r => Some ([48], r)
    | b :: _ => if in_range 49 57 b then digits1 s1 else None
    | [] => None
    end in
  match int_part with
  | None => None
  | Some (ip, r) =>
      match frac_exp r with
      | Some (fe, r') => Some (sg ++ ip ++ fe, r')
      | None => None
      end
  end.

(** The elements of an array after its first element is due. *)
Fixpoint parse_elems (pv : list Z -> option (jvalue * list Z)) (g : nat)
    (s : list Z) (acc : list jvalue) : option (jvalue * list Z) :=
  match g with
  | O => None
  | S g' =>
      match pv s with
      | None => None
      | Some (v, s1) =>
          match skip_ws s1 with
          | 44 :: s2 => parse_elems pv g' s2 (acc ++ [v])
          | 93 :: s2 => Some (JArray (acc ++ [v]), s2)
          | _ => None
          end
      end
  end.

(** The members of an object after its first member is due. *)
Fixpoint parse_members (pv : list Z -> option (jvalue * list Z)) (g : nat)
    (s : list Z) (acc : list (list Z * jvalue)) : option (jvalue * list Z) :=
  match g with
  | O => None
  | S g' =>
      match skip_ws s with
      | 34 :: s1 =>
          match str_body (S (length s1)) s1 with
          | None => None
          | Some (k, s2) =>
              match skip_ws s2 with
              | 58 :: s3 =>
                  match pv s3 with
                  | None => None
                  | Some (v, s4) =>
                      match skip_ws s4 with
                      | 44 :: s5 => parse_members pv g' s5 (acc ++ [(k, v)])
                      | 125 :: s5 => Some (JObject (acc ++ [(k, v)]), s5)
                      | _ => None
                      end
                  end
              | _ => None
              end
          end
      | _ => None
      end
  end.

Fixpoint parse_value (fuel : nat) (s : list Z) : option (jvalue * list Z) :=
  match fuel with
  | O => None
  | S f =>
      match skip_ws s with
      | 91 :: r =>
          match skip_ws r with
          | 93 :: r' => Some (JArray [], r')
          | _ => parse_elems (parse_value f) (length r) r []
          end
      | 123 :: r =>
          match skip_ws r with
          | 125 :: r' => Some (JObject [], r')
          | _ => parse_members (parse_value f) (length r) r []
          end
      | 34 :: r =>
          match str_body (S (length r)) r with
          | Some (d, r') => Some (JString d, r')
          | None => None
          end
      | 116 :: 114 :: 117 :: 101 :: r => Some (JBool true, r)
      | 102 :: 97 :: 108 :: 115 :: 101 :: r => Some (JBool false, r)
      | 110 :: 117 :: 108 :: 108 :: r => Some (JNull, r)
      | s' =>
          match parse_number s' with
          | Some (lit, r) => Some (JNumber lit, r)
          | None => None
          end
      end
  end.

(** A whole JSON text: one value, surrounded by optional white space.
    (The decoder's nesting limit of 10000 is not modelled.) *)
Definition parse_json (s : list Z) : option jvalue :=
  match parse_value (length s) s with
  | Some (v, r) => match skip_ws r with [] => Some v | _ => None end
  | None => None
  end.

Fixpoint uint_of_bytes (s : list Z) : option Decimal.uint :=
  match s with
  | [] => Some Decimal.Nil
  | b :: r =>
      match uint_of_bytes r with
      | None => None
      | Some d =>
          if b =? 48 then Some (Decimal.D0 d) else if b =? 49 then Some (Decimal.D1 d)
          else if b =? 50 then Some (Decimal.D2 d) else if b =? 51 then Some (Decimal.D3 d)
          else if b =? 52 then Some (Decimal.D4 d) else if b =? 53 then Some (Decimal.D5 d)
          else if b =? 54 then Some (Decimal.D6 d) else if b =? 55 then Some (Decimal.D7 d)
          else if b =? 56 then Some (Decimal.D8 d) else if b =? 57 then Some (Decimal.D9 d)
          else None
      end
  end.

(** strconv.ParseInt(lit, 10, 64) *)
Definition parse_int (lit : list Z) : option Z :=
  let '(neg, body) :=
    match lit with
    | 45 :: r => (true, r)
    | 43 :: r => (false, r)
    | _ => (false, lit)
    end in
  match body with
  | [] => None
  | _ =>
      match uint_of_bytes body with
      | None => None
      | Some d =>
          let n := Z.of_N (N.of_uint d) in
          let z := if neg then - n else n in
          if (GoStr.int64_min <=? z) && (z <=? GoStr.int64_max) then Some z else None
      end
  end.

Definition ascii_lower (b : Z) : Z := if in_range 65 90 b then b + 32 else b.

(** The field a key selects: the exact json name or, failing that, a
    case-insensitive match (ASCII folding). *)
Definition key_is (k : list Z) (field : string) : bool :=
  bool_decide (map ascii_lower k = map ascii_lower (bytes_of_string field)).

Definition set_int (v : jvalue) (old : Z) : option Z :=
  match v with
  | JNull => Some old
  | JNumber lit => parse_int lit
  | _ => None
  end.

(** Storing one member into a TunnelStats; unknown keys are skipped, a
    type mismatch makes Unmarshal return an error. *)
Definition set_field (t : TunnelStats) (k : list Z) (v : jvalue) : option TunnelStats :=
  if key_is k "name" then
    match v with
    | JString s => Some (mkStats s (ts_connections t) (ts_received t) (ts_transmitted t))
    | JNull => Some t
    | _ => None
    end
  else if key_is k "connections" then
    match set_int v (ts_connections t) with
    | Some n => Some (mkStats (ts_name t) n (ts_received t) (ts_transmitted t))
    | None => None
    end
  else if key_is k "received" then
    match set_int v (ts_received t) with
    | Some n => Some (mkStats (ts_name t) (ts_connections t) n (ts_transmitted t))
    | None => None
    end
  else if key_is k "transmitted" then
    match set_int v (ts_transmitted t) with
    | Some n => Some (mkStats (ts_name t) (ts_connections t) (ts_received t) n)
    | None => None
    end
  else Some t.

Definition zero_stats : TunnelStats := mkStats [] 0 0 0.

(** One element of []*TunnelStats: null is a nil pointer. *)
Definition to_stats (v : jvalue) : option (option TunnelStats) :=
  match v with
  | JNull => Some None
  | JObject kvs =>
      match fold_left (fun acc kv => match acc with
                                     | Some t => set_field t kv.1 kv.2
                                     | None => None
                                     end) kvs (Some zero_stats) with
      | Some t => Some (Some t)
      | None => None
      end
  | _ => None
  end.

Fixpoint to_stats_list (vs : list jvalue) : option (list (option TunnelStats)) :=
  match vs with
  | [] => Some []
  | v :: vs =>
      match to_stats v, to_stats_list vs with
      | Some t, Some ts => Some (t :: ts)
      | _, _ => None
      end
  end.

(** json.Unmarshal(data, &ts) with ts of type []*TunnelStats: [None] when
    it returns an error. *)
Definition unmarshal (s : list Z) : option (list (option TunnelStats)) :=
  match parse_json s with
  | Some JNull => Some []
  | Some (JArray vs) => to_stats_list vs
  | _ => None
  end.

(** The JSON value json.Marshal writes for one record, as the decoder
    sees it; and the records with a name of valid UTF-8 bytes and int64
    counters. *)
Definition stats_json (t : TunnelStats) : jvalue :=
  JObject [(bytes_of_string "name", JString (ts_name t));
           (bytes_of_string "connections", JNumber (encode_int (ts_connections t)));
           (bytes_of_string "received", JNumber (encode_int (ts_received t)));
           (bytes_of_string "transmitted", JNumber (encode_int (ts_transmitted t)))].

Definition stats_ok (t : TunnelStats) : Prop :=
  Forall byte_ok (ts_name t) /\ valid_utf8 (ts_name t) = true /\
  GoStr.int64_min <= ts_connections t <= GoStr.int64_max /\
  GoStr.int64_min <= ts_received t <= GoStr.int64_max /\
  GoStr.int64_min <= ts_transmitted t <= GoStr.int64_max.

End Json.

(* ------------------------------------------------------------------ *)
(** ** Framing: writeUpdate and receiveStats (internal/statistics.go) *)
(* ------------------------------------------------------------------ *)

Module Wire.
Import Json.

(** writeUpdate: [x := 256 - len(update) % 256], then [zeros[256-x:]] (x
    zero bytes, between 1 and 256) is appended. *)
Definition pad_frame (update : list Z) : list Z :=
  let x := 256 - Z.of_nat (length update) mod 256 in
  update ++ repeat 0 (Z.to_nat x).

(** The bytes the publisher writes for one broadcast. *)
Definition publish (l : list TunnelStats) : list Z := pad_frame (marshal l).

(** strings.IndexByte *)
Fixpoint index_byte (s : list Z) (b : Z) : option nat :=
  match s with
  | [] => None
  | c :: r =>
      if c =? b then Some 0%nat
      else match index_byte r b with Some i => Some (S i) | None => None end
  end.

(** [str[:strings.IndexByte(str, 0)]] for a frame that holds a zero byte. *)
Definition until_zero (s : list Z) : list Z :=
  match index_byte s 0 with Some i => take i s | None => s end.

(** The subscriber's handling of a completed frame: the payload before the
    first zero byte, given to json.Unmarshal. *)
Definition parse_frame (s : list Z) : option (list (option TunnelStats)) :=
  unmarshal (until_zero s).

(** What a conn.Read call returns: the bytes read into the buffer (at most
    256), or an error. *)
Inductive read_result :=
  | ReadData (data : list Z)
  | ReadError.

(** How the loop of receiveStats stops: it is still waiting in Read (the
    reads given are used up), it returned after a read error, or it
    panicked (an index out of range or a nil element printed). *)
Inductive loop_end :=
  | Waiting
  | Disconnected
  | Panicked.

(** The rows printed for one parsed frame; a nil element is dereferenced. *)
Fixpoint rows (ts : list (option TunnelStats)) : option (list TunnelStats) :=
  match ts with
  | [] => Some []
  | Some t :: r => match rows r with Some l => Some (t :: l) | None => None end
  | None :: _ => None
  end.

(** The read loop of receiveStats: [bs] is the 256-byte buffer (reused
    across reads), [str] the bytes accumulated since the last frame. The
    result lists the tables printed and how the loop stopped. *)
Fixpoint receive_loop (bs str : list Z) (reads : list read_result)
    : list (list TunnelStats) * loop_end :=
  match reads with
  | [] => ([], Waiting)
  | ReadError :: _ => ([], Disconnected)
  | ReadData d :: rs =>
      let n := length d in
      (* conn.Read(bs) overwrites the first n bytes of bs *)
      let bs := d ++ drop n bs in
      (* str = str + string(bs): the whole buffer is appended *)
      let str := str ++ bs in
      if (n =? 0)%nat then ([], Panicked)      (* bs[n-1] with n = 0 *)
      else if nth (n - 1) bs 1 =? 0 then
        match parse_frame str with
        | Some ts =>
            match rows ts with
            | Some l => let '(out, e) := receive_loop bs [] rs in (l :: out, e)
            | None => ([], Panicked)
            end
        | None => receive_loop bs [] rs
        end
      else receive_loop bs str rs
  end.

(** receiveStats starts with [bs := make([]byte, 256)] and [str := ""]. *)
Definition receive_stats (reads : list read_result) : list (list TunnelStats) * loop_end :=
  receive_loop (repeat 0 256) [] reads.

(** A byte stream as the subscriber's conn.Read calls return it when
    every read fills the 256-byte buffer: consecutive blocks of 256 bytes,
    the last one shorter when the length is not a multiple of 256. *)
Fixpoint blocks_go (fuel : nat) (s : list Z) : list (list Z) :=
  match fuel with
  | O => []
  | S f => match s with [] => [] | _ => take 256 s :: blocks_go f (drop 256 s) end
  end.

Definition blocks (s : list Z) : list (list Z) := blocks_go (length s) s.

End Wire.

(* ------------------------------------------------------------------ *)
(** ** The broadcaster: statsBroadcaster (internal/statistics.go) *)
(* ------------------------------------------------------------------ *)

Module Broadcast.

(** Times are milliseconds. *)
Definition interval : Z := 5000.
Definition settle : Z := 1000.

(** [updated], [lastBroadcast], the wake-up time of the goroutine started
    for the pending broadcast (if any), and [len(s.connections)]. *)
Record BState := mkB {
  updated : bool;
  last_broadcast : Z;
  pending : option Z;
  subscribers : nat
}.

(** Inputs: a signal on updateChan, a subscriber registered by
    addConnection. *)
Inductive event :=
  | Signal
  | Subscribe.

(** statsBroadcaster starts at time [t0] with
    [lastBroadcast := time.Now().Add(-interval)]. *)
Definition start (t0 : Z) : BState := mkB false (t0 - interval) None 0.

(** The [case <-s.updateChan] branch at time [t]. *)
Definition on_signal (st : BState) (t : Z) : BState :=
  if negb (updated st) then
    if (0 <? subscribers st)%nat then
      let diff := last_broadcast st + interval - t in
      let wake := if 0 <? diff then t + diff else t + settle in
      mkB true (last_broadcast st) (Some wake) (subscribers st)
    else mkB true (last_broadcast st) (pending st) (subscribers st)
  else st.

Definition on_subscribe (st : BState) : BState :=
  mkB (updated st) (last_broadcast st) (pending st) (S (subscribers st)).

(** The goroutine wakes at [w]: it marshals, sets [lastBroadcast], calls
    writeUpdate (a broadcast to the subscribers) and clears [updated]. *)
Definition fire (st : BState) (w : Z) : BState :=
  mkB false w None (subscribers st).

Definition handle (st : BState) (t : Z) (e : event) : BState :=
  match e with Signal => on_signal st t | Subscribe => on_subscribe st end.

(** A run over time-stamped inputs in increasing time order; the result
    is the list of broadcast times. A pending wake-up at or before the
    next input happens first; one still pending after the last input
    happens then. *)
Fixpoint run (st : BState) (evs : list (Z * event)) : list Z :=
  match evs with
  | [] => match pending st with Some w => [w] | None => [] end
  | (t, e) :: rest =>
      let '(fired, st1) :=
        match pending st with
        | Some w => if w <=? t then ([w], fire st w) else ([], st)
        | None => ([], st)
        end in
      fired ++ run (handle st1 t e) rest
  end.

(** Broadcast times [ws], each at least [interval] after the one before,
    the first at least [interval] after [last]. *)
Fixpoint spaced (last : Z) (ws : list Z) : Prop :=
  match ws with
  | [] => True
  | w :: r => last + interval <= w /\ spaced w r
  end.

(** The number of signals among the inputs. *)
Fixpoint signals (evs : list (Z * event)) : nat :=
  match evs with
  | [] => 0
  | (_, Signal) :: r => S (signals r)
  | (_, Subscribe) :: r => signals r
  end.

(** The pending wake-up, if any, is at least [interval] after the last
    broadcast. *)
Definition pending_ok (st : BState) : Prop :=
  match pending st with Some w => last_broadcast st + interval <= w | None => True end.

(** The number of pending wake-ups: 0 or 1. *)
Definition pend (st : BState) : nat := if pending st then 1 else 0.

End Broadcast.

(* ------------------------------------------------------------------ *)
(** ** The relay loop: Tunnel.copy (internal/statistics.go) *)
(* ------------------------------------------------------------------ *)

Module Relay.
Import GoStr Json.

(** The size of the copy buffer, [make([]byte, 32*1024)]. *)
Definition buf_size : Z := 32 * 1024.

(** int64 addition wraps around. *)
Definition wrap64 (z : Z) : Z := (z + 2 ^ 63) mod 2 ^ 64 - 2 ^ 63.

(** The I/O of one iteration: [src.Read(buf)] returns [nr] bytes and an
    error or not ([read_err]); when [nr > 0], [dst.Write(buf[0:nr])]
    returns [nw] and an error or not ([write_err]), and [delivered] is the
    number of bytes the writer actually wrote. *)
Record io_round := mkRound {
  nr : Z;
  read_err : bool;
  nw : Z;
  write_err : bool;
  delivered : Z
}.

(** [t.stats.Received += int64(nw)] (read) or
    [t.stats.Transmitted += int64(nw)] (not read). *)
Definition count (read : bool) (s : TunnelStats) (n : Z) : TunnelStats :=
  if read then mkStats (ts_name s) (ts_connections s) (wrap64 (ts_received s + n)) (ts_transmitted s)
  else mkStats (ts_name s) (ts_connections s) (ts_received s) (wrap64 (ts_transmitted s + n)).

(** The counter the loop updates. *)
Definition counter (read : bool) (s : TunnelStats) : Z :=
  if read then ts_received s else ts_transmitted s.

(** One iteration of the loop of copy: the new stats, the bytes the writer
    delivered in this iteration, and whether the loop goes on. *)
Definition copy_step (read : bool) (s : option TunnelStats) (r : io_round)
    : option TunnelStats * Z * bool :=
  if 0 <? nr r then
    let '(n, ew) :=
      if (nw r <? 0) || (nr r <? nw r) then (0, true) else (nw r, write_err r) in
    let s := match s with Some s => Some (count read s n) | None => None end in
    if ew then (s, delivered r, false)
    else if negb (nr r =? n) then (s, delivered r, false)      (* io.ErrShortWrite *)
    else (s, delivered r, negb (read_err r))
  else (s, 0, negb (read_err r)).

(** The loop of copy over the successive iterations [rs]: the stats after
    the iterations run and the bytes delivered by them. The loop stops at
    a break; when [rs] runs out it is still running. *)
Fixpoint copy_loop (read : bool) (s : option TunnelStats) (rs : list io_round)
    : option TunnelStats * Z :=
  match rs with
  | [] => (s, 0)
  | r :: rs =>
      let '(s', d, go) := copy_step read s r in
      if go then let '(s'', d') := copy_loop read s' rs in (s'', d + d')
      else (s', d)
  end.


(** The bytes the writer delivers over the given iterations. *)
Definition total_delivered (rs : list io_round) : Z :=
  fold_right (fun r acc => delivered r + acc) 0 rs.

(** An iteration in which the whole 32 KiB buffer is read and written. *)
Definition full_round : io_round := mkRound buf_size false buf_size false buf_size.

(** The iteration ends the loop: a read error, or bytes read and then a
    write error or a count that is not [nr]. *)
Definition stops (r : io_round) : bool :=
  read_err r || ((0 <? nr r) && (write_err r || negb (nw r =? nr r))).

(** An iteration without errors that reads some bytes and writes all of
    them. *)
Definition clean (r : io_round) : Prop :=
  0 < nr r /\ nw r = nr r /\ write_err r = false /\ read_err r = false.

(** The bytes read over the given iterations. *)
Definition total_read (rs : list io_round) : Z :=
  fold_right (fun r acc => nr r + acc) 0 rs.

End Relay.

(* ------------------------------------------------------------------ *)
(** ** Dialling through the session: Host.Dial (internal/host.go) *)
(* ------------------------------------------------------------------ *)

Module Session.
Import GoStr Config.

Fixpoint index_of (c : ascii) (s : list ascii) : option nat :=
  match s with
  | [] => None
  | x :: r =>
      if Ascii.eqb x c then Some 0%nat
      else match index_of c r with Some i => Some (S i) | None => None end
  end.

Definition last_index_of (c : ascii) (s : list ascii) : option nat :=
  match index_of c (rev s) with
  | Some i => Some (length s - 1 - i)%nat
  | None => None
  end.

Definition has (c : ascii) (s : list ascii) : bool :=
  match index_of c s with Some _ => true | None => false end.

(** net.SplitHostPort, on the bytes of the address. *)
Definition split_host_port (hostport : string) : option (string * string) :=
  let s := list_ascii_of_string hostport in
  match last_index_of ":" s with
  | None => None                                      (* missing port *)
  | Some i =>
      let hj :=
        match s with
        | "["%char :: _ =>
            match index_of "]" s with
            | None => None
            | Some e =>
                if (S e =? length s)%nat then None
                else if (S e =? i)%nat then Some (take (e - 1) (drop 1 s), 1%nat, S e)
                else None
            end
        | _ =>
            let host := take i s in
            if has ":" host then None else Some (host, 0%nat, 0%nat)
        end in
      match hj with
      | None => None
      | Some (host, j, k) =>
          if has "[" (drop j s) then None
          else if has "]" (drop k s) then None
          else Some (string_of_list_ascii host, string_of_list_ascii (drop (S i) s))
      end
  end.

(** strconv.ParseUint(s, 10, 16) *)
Definition parse_uint16 (s : string) : option Z :=
  if String.eqb s "" then None
  else match digits_acc 0%N s with
       | Some n => if (Z.of_N n <=? 65535) then Some (Z.of_N n) else None
       | None => None
       end.

(** The result of a call: a panic, or the returned (connection, ok) pair;
    a connection is the host and port of the channel opened. *)
Inductive dial_result :=
  | Panics
  | Returns (conn : option (string * Z)) (ok : bool).

(** Client.Dial("tcp", addr) of golang.org/x/crypto/ssh: the address
    is split and its port parsed before the client is used; the client
    (a nil pointer when absent) is then used to open a direct-tcpip
    channel, which the server accepts or not ([accept]). *)
Definition client_dial (accept : N -> string -> Z -> bool) (client : option N)
    (addr : string) : option (string * Z) + unit :=
  match split_host_port addr with
  | None => inl None
  | Some (host, ps) =>
      match parse_uint16 ps with
      | None => inl None
      | Some p =>
          match client with
          | None => inr tt                                 (* nil dereference *)
          | Some c => inl (if accept c host p then Some (host, p) else None)
          end
      end
  end.

(** Host.Dial(address) *)
Definition host_dial (accept : N -> string -> Z -> bool) (h : Host) (address : string)
    : dial_result :=
  match client_dial accept (h_client h) address with
  | inr _ => Panics
  | inl (Some c) => Returns (Some c) true
  | inl None => Returns None false
  end.

End Session.

(* ------------------------------------------------------------------ *)
(** ** The command line of ferret: parseCommandLine (unnamed/part_003) *)
(* ------------------------------------------------------------------ *)

Module Cli.
Import GoStr.

(** strings.HasPrefix(s, "-") *)
Definition dash_prefix (s : string) : bool :=
  match s with String "-" _ => true | _ => false end.

Definition int32_min : Z := - 2 ^ 31.
Definition int32_max : Z := 2 ^ 31 - 1.

(** strconv.ParseInt(s, 10, 32): an optional sign, then one or more
    decimal digits; a value outside the int32 range is an error. *)
Definition parse_int32 (s : string) : option Z :=
  let '(neg, body) :=
    match s with
    | String "-" r => (true, r)
    | String "+" r => (false, r)
    | _ => (false, s)
    end in
  match body with
  | EmptyString => None
  | _ =>
      match digits_acc 0 body with
      | None => None
      | Some n =>
          let z := if neg then - Z.of_N n else Z.of_N n in
          if (int32_min <=? z) && (z <=? int32_max) then Some z else None
      end
  end.

(** The package variables the command line sets: helpFlag, versionFlag,
    verboseFlag, configFile and statsPort. *)
Record Flags := mkFlags {
  help_flag : bool;
  version_flag : bool;
  verbose_flag : bool;
  config_file : string;
  stats_port : Z
}.

(** terminate(code) ends the process; otherwise main goes on with the
    flags. (The messages printed are not modelled.) *)
Inductive outcome :=
  | Exit (code : Z)
  | Proceed (f : Flags).

Definition set_help (f : Flags) : Flags :=
  mkFlags true (version_flag f) (verbose_flag f) (config_file f) (stats_port f).
Definition set_version (f : Flags) : Flags :=
  mkFlags (help_flag f) true (verbose_flag f) (config_file f) (stats_port f).
Definition set_verbose (f : Flags) : Flags :=
  mkFlags (help_flag f) (version_flag f) true (config_file f) (stats_port f).
Definition set_config (f : Flags) (c : string) : Flags :=
  mkFlags (help_flag f) (version_flag f) (verbose_flag f) c (stats_port f).
Definition set_stats_port (f : Flags) (p : Z) : Flags :=
  mkFlags (help_flag f) (version_flag f) (verbose_flag f) (config_file f) p.

(** The loop of parseCommandLine over os.Args[1:]. For "-p" and "-c",
    parameter(index) takes the next argument when there is one and it does
    not start with "-", and calls terminate(1) otherwise; parameterInt
    also calls terminate(1) when ParseInt fails. Any other argument sets
    helpFlag. *)
Fixpoint parse_args (args : list string) (f : Flags) : outcome :=
  match args with
  | [] => Proceed f
  | a :: rest =>
      if String.eqb a "-h" || String.eqb a "--help" then parse_args rest (set_help f)
      else if String.eqb a "-V" || String.eqb a "--version" then parse_args rest (set_version f)
      else if String.eqb a "-v" || String.eqb a "--verbose" then parse_args rest (set_verbose f)
      else if String.eqb a "-p" || String.eqb a "--stats-port" then
        match rest with
        | v :: r =>
            if dash_prefix v then Exit 1
            else match parse_int32 v with
                 | Some i => parse_args r (set_stats_port f i)
                 | None => Exit 1
                 end
        | [] => Exit 1
        end
      else if String.eqb a "-c" || String.eqb a "--config" then
        match rest with
        | v :: r => if dash_prefix v then Exit 1 else parse_args r (set_config f v)
        | [] => Exit 1
        end
      else parse_args rest (set_help f)
  end.

(** parseCommandLine(): after the loop, help() and version() print and
    call terminate(0). *)
Definition parse_command_line (args : list string) (f : Flags) : outcome :=
  match parse_args args f with
  | Exit c => Exit c
  | Proceed f =>
      if help_flag f then Exit 0
      else if version_flag f then Exit 0
      else Proceed f
  end.

(** The flags after defaultValues(), which sets statsPort to 2663 and
    configFile from the current user and the OS. *)
Definition default_flags (config : string) : Flags := mkFlags false false false config 2663.

(** StartStatsTunnel (internal/statistics.go) opens the stats listener
    unless statsPort is -1. *)
Definition stats_enabled (stats_port : Z) : bool := negb (stats_port =? -1).

(** The case labels of the switch of parseCommandLine. *)
Definition switch_cases : list string :=
  ["-h"; "--help"; "-V"; "--version"; "-v"; "--verbose"; "-p"; "--stats-port"; "-c"; "--config"]%string.

End Cli.

(* ------------------------------------------------------------------ *)
(** ** Concrete inputs used by the examples below *)
(* ------------------------------------------------------------------ *)

Module Samples.
Import GoStr Addr Config.

(** A resolver that knows no host name (IP literals still resolve). *)
Definition no_dns : string -> option (list ip) := fun _ => None.

(** A resolver that only has an IPv6 address for every name. *)
Definition v6_dns : string -> option (list ip) := fun _ => Some [IPv6].

(** An environment for the examples: Address.Validate behaves as the
    ValidateAddress of unnamed/part_000 with [no_dns], every key file can
    be read. *)
Definition sample_env : Env :=
  mkEnv false (fun _ _ _ remote _ a => validate_address no_dns remote a)
    (fun _ => FileOk) (fun _ _ => FileOk).

Definition sample_host (name jump : string) (l : loc) : Host :=
  mkHost name (Some l) "" "id_rsa" "" "" jump false false None None.

(** A state holding the given addresses at locations 0, 1, ... *)
Definition state_with (addrs : list string) (ports : list (option Z)) : State :=
  mkState ∅ ∅ (list_to_map (zip (map N.of_nat (seq 0 (length addrs))) (map new_address addrs)))
    (N.of_nat (length addrs)) initial_host_keys ∅ ports [].

(** One iteration order of the Hosts map: the order of its keys in the
    finite map. *)
Definition key_order (st : State) : list string := map fst (map_to_list (hosts st)).

(** The host registered under [k], or a blank host when there is none. *)
Definition host_at (st : State) (k : string) : Host :=
  match hosts st !! k with Some h => h | None => sample_host k "" 0%N end.

(** Host B with jump host C, C with jump host D, D without one. *)
Definition chain_hosts : list Host :=
  [sample_host "B" "C" 0%N; sample_host "C" "D" 1%N; sample_host "D" "" 2%N].
Definition chain_state : State :=
  state_with ["10.0.0.2:22"; "10.0.0.3:22"; "10.0.0.4:22"; "127.0.0.1:8080"; "10.0.0.9:80"]
    [Some 40000; Some 40001; Some 40002].
(** The tunnel "web" from 127.0.0.1:8080 to 10.0.0.9:80 through host B. *)
Definition chain_tunnel : Tunnel := mkTunnel "web" (Some 3%N) "B" (Some 4%N).

(** Host A, and host B with jump host A. *)
Definition jb_hosts : list Host := [sample_host "A" "" 0%N; sample_host "B" "A" 1%N].
Definition jb_state : State :=
  state_with ["10.0.0.1:22"; "10.0.0.2:22"; "127.0.0.1:8080"; "10.0.0.9:80"] [Some 40000].
Definition jb_tunnel : Tunnel := mkTunnel "web" (Some 2%N) "B" (Some 3%N).
(** The state after the host and tunnel loops of Configuration.Validate
    (every file check of [sample_env] succeeds, so they do not panic). *)
Definition jb_entries (ts : list Tunnel) : State :=
  match validate_entries sample_env "me" jb_hosts ts jb_state with
  | Some (_, st) => st
  | None => jb_state
  end.

(** Host B with no jump host, validated in a state holding its address. *)
Definition host_b : Host := sample_host "B" "" 0%N.
Definition host_b_state : State := state_with ["10.0.0.2:22"] [].
Definition host_b_result : option (bool * State) := host_validate sample_env "me" host_b host_b_state.

(** The tunnel "web" validated after hosts A and B. *)
Definition web_result : bool * State := tunnel_validate sample_env jb_tunnel (jb_entries []).

(** Configuration.Validate on hosts A and B and the tunnel "web". *)
Definition jb_config_result : option (bool * State) :=
  config_validate sample_env "me" jb_hosts [jb_tunnel] key_order jb_state.

(** A host whose SSH session is open (client 0). *)
Definition opened_host : Host := mkHost "B" (Some 0%N) "" "id_rsa" "" "" "" true false (Some 0%N) None.

End Samples.

(* ================================================================== *)
(** * Properties *)
(* ================================================================== *)

Module ConfigFacts.
Import GoStr Addr Config Samples.

(** Address.Validate only touches the address object it is called on. *)
Lemma validate_ptr_state E g n a r lc l st ok st' :
  validate_ptr E g n a r lc l st = (ok, st') -> exists m, st' = set_heap st m.
Proof.
  unfold validate_ptr. destruct (heap st !! l) as [x|].
  - destruct (env_validate E g n a r lc x). intros [= <- <-]. eauto.
  - intros [= <- <-]. exists (heap st). by destruct st.
Qed.

(** Name the state after the next [let '(_, st) := ...] of a validation. *)
Ltac next_state v s E :=
  match goal with
  | |- context [match ?e with pair _ _ => _ end] => destruct e as [v s] eqn:E
  end.

(** Step through Host.Validate, keeping [hostKeysMap[""]] in sight. *)
Ltac keys_step Hk :=
  match goal with
  | p : (_ * _)%type |- _ => destruct p
  | |- context [match ?e with pair _ _ => _ end] =>
      let E := fresh "E" in
      let s := fresh "st" in
      let p := fresh "p" in
      destruct e as [p s] eqn:E;
      let Hk' := fresh "Hk" in
      assert (Hk' : host_keys s !! "" = Some AcceptAnyKey)
        by (revert E; clear - Hk; repeat case_match; intros E;
            simplify_eq/=; try done;
            try (rewrite lookup_insert_ne; [done | congruence]);
            try (match goal with H : validate_ptr _ _ _ _ _ _ _ _ = _ |- _ =>
                   apply validate_ptr_state in H as [? ->]; done end));
      clear Hk; rename Hk' into Hk
  | |- context [match ?e with Some _ => _ | None => _ end] =>
      lazymatch type of e with
      | option (_ * State)%type =>
          let E := fresh "E" in
          let s := fresh "st" in
          let p := fresh "p" in
          destruct e as [[p s]|] eqn:E; [|intros ?; discriminate];
          let Hk' := fresh "Hk" in
          assert (Hk' : host_keys s !! "" = Some AcceptAnyKey)
            by (revert E; clear - Hk; repeat case_match; intros E;
                simplify_eq/=; try done;
                try (rewrite lookup_insert_ne; [done | congruence]));
          clear Hk; rename Hk' into Hk
      end
  end.

(** C10. For a host whose jump_host is non-empty and differs from its
    (trimmed) name, Host.Validate registers the host with an empty
    known_hosts path and a client configuration whose host-key callback is
    hostKeysMap[""], the callback that accepts every server key: host-key
    checking is off for every host reached through a jump host. The only
    assumption is that hostKeysMap[""] still holds that callback, as it
    does initially and after any validation. *)
Theorem jump_host_accepts_any_key E du h st v st' :
  host_keys st !! "" = Some AcceptAnyKey ->
  h_jump_host h <> ""%string -> h_jump_host h <> trim_space (h_name h) ->
  host_validate E du h st = Some (v, st') ->
  exists h', hosts st' !! trim_space (h_name h) = Some h' /\
    h_known_hosts h' = ""%string /\
    exists cfg, h_config h' = Some cfg /\ cc_host_key cfg = Some AcceptAnyKey.
Proof.
  intros Hk Hj Hn. unfold host_validate. cbv zeta.
  repeat keys_step Hk.
  match goal with E : (if (h_jump_host h =? "")%string then _ else _) = _ |- _ =>
    rewrite (proj2 (String.eqb_neq _ _) Hj), (proj2 (String.eqb_neq _ _) Hn) in E end.
  simplify_eq. intros [= <- <-].
  eexists; split; [by simplify_map_eq|]. split; [done|].
  eexists; split; [done|]. done.
Qed.

(** Host B with jump host A and known_hosts "/etc/ssh/known_hosts",
    validated in the initial state. *)
Lemma jump_host_accepts_any_key_witness :
  match host_validate sample_env "me" (mkHost "B" (Some 0%N) "u" "id_rsa" "" "/etc/ssh/known_hosts" "A" false false None None)
          (state_with ["10.0.0.2:22"] []) with
  | Some (_, st') =>
      exists h', hosts st' !! "B" = Some h' /\
        h_known_hosts h' = ""%string /\
        exists cfg, h_config h' = Some cfg /\ cc_host_key cfg = Some AcceptAnyKey
  | None => False
  end.
Proof.
  destruct (host_validate sample_env "me" (mkHost "B" (Some 0%N) "u" "id_rsa" "" "/etc/ssh/known_hosts" "A" false false None None)
              (state_with ["10.0.0.2:22"] [])) as [[v st']|] eqn:Hv.
  - apply (jump_host_accepts_any_key sample_env "me" (mkHost "B" (Some 0%N) "u" "id_rsa" "" "/etc/ssh/known_hosts" "A" false false None None)
             (state_with ["10.0.0.2:22"] []) v st').
    + vm_compute. reflexivity.
    + vm_compute. discriminate.
    + vm_compute. discriminate.
    + exact Hv.
  - vm_compute in Hv. discriminate Hv.
Defined.

(** C7, as the code has it. A tunnel whose local address is blank (nil or
    empty) and whose forward address is valid once validated gets, as its
    local address, a new Address object made from
    "127.0.0.1:<forward port>" and then validated; the tunnel is
    registered with that object as its local address and the forward
    object as its forward address. The new object is allocated at the
    first free location, assumed unused. *)
Theorem tunnel_default_local E t st v st' f a a' okf :
  blank_ptr st (t_local t) = true ->
  t_forward t = Some f ->
  heap st !! f = Some a -> is_blank a = false ->
  env_validate E "tunnel" (trim_space (t_name t)) "forward address" true false a = (a', okf) ->
  valid a' = true ->
  heap st !! next_loc st = None ->
  tunnel_validate E t st = (v, st') ->
  tunnels st' !! trim_space (t_name t)
    = Some (mkTunnel (trim_space (t_name t)) (Some (next_loc st)) (trim_space (t_host t)) (Some f)) /\
  heap st' !! next_loc st
    = Some (fst (env_validate E "tunnel" (trim_space (t_name t)) "local address" true false
                   (new_address ("127.0.0.1:" +:+ itoa (port a'))))) /\
  heap st' !! f = Some a'.
Proof.
  intros Hl Hf Ha Hnb Hv Hval Hfresh.
  unfold tunnel_validate. cbv zeta. rewrite Hf.
  set (name := trim_space (t_name t)) in *.
  next_state v1 st1 E1.
  assert (heap st1 = heap st /\ next_loc st1 = next_loc st) as [H1h H1n]
    by (case_match; simplify_eq; done).
  next_state v2 st2 E2.
  assert (heap st2 = heap st /\ next_loc st2 = next_loc st) as [H2h H2n]
    by (case_match; simplify_eq; done).
  unfold blank_ptr at 1. rewrite H2h, Ha, Hnb.
  unfold validate_ptr. rewrite H2h, Ha, Hv.
  assert (Hl' : blank_ptr (set_heap st2 (<[f:=a']> (heap st))) (t_local t) = true).
  { unfold blank_ptr in *. destruct (t_local t) as [l|]; [|done]. simpl.
    destruct (decide (l = f)) as [->|Hne].
    - rewrite Ha, Hnb in Hl. discriminate.
    - rewrite lookup_insert_ne by congruence. done. }
  rewrite Hl'. cbn [valid_ptr port_ptr heap set_heap]. simplify_map_eq.
  unfold is_valid, get_port. rewrite Hval, H2n.
  cbn [blank_ptr heap]. simplify_map_eq.
  cbn [is_blank new_address address String.eqb String.append].
  destruct (env_validate E "tunnel" name "local address" true false _) as [a2 ok2] eqn:Hv2.
  cbn [andb].
  next_state v3 st3 E3.
  assert (heap st3 = <[next_loc st:=a2]> (<[next_loc st:=new_address ("127.0.0.1:" +:+ itoa (port a'))]> (<[f:=a']> (heap st)))) as H3h
    by (repeat case_match; simplify_eq; done).
  intros [= <- <-]. cbn [tunnels set_tunnels heap].
  split; [by simplify_map_eq|].
  assert (Hnf : next_loc st <> f) by congruence.
  destruct (env_verbose E && v3); cbn [heap emit]; rewrite H3h; split; by simplify_map_eq.
Qed.

(** The tunnel "web" to 10.0.0.5:22 through host B, without a local
    address. *)
Lemma tunnel_default_local_witness :
  let t := mkTunnel "web" None "B" (Some 0%N) in
  let st := state_with ["10.0.0.5:22"] [] in
  tunnels (tunnel_validate sample_env t st).2 !! "web"
    = Some (mkTunnel "web" (Some 1%N) "B" (Some 0%N)) /\
  heap (tunnel_validate sample_env t st).2 !! 1%N
    = Some (fst (env_validate sample_env "tunnel" "web" "local address" true false
                   (new_address ("127.0.0.1:" +:+ itoa 22)))) /\
  heap (tunnel_validate sample_env t st).2 !! 0%N = Some (mkAddress true "10.0.0.5:22" 22).
Proof.
  apply (tunnel_default_local sample_env (mkTunnel "web" None "B" (Some 0%N))
    (state_with ["10.0.0.5:22"] [])
    (tunnel_validate sample_env (mkTunnel "web" None "B" (Some 0%N)) (state_with ["10.0.0.5:22"] [])).1
    (tunnel_validate sample_env (mkTunnel "web" None "B" (Some 0%N)) (state_with ["10.0.0.5:22"] [])).2
    0%N (new_address "10.0.0.5:22") (mkAddress true "10.0.0.5:22" 22) true);
  vm_compute; reflexivity.
Defined.

(** C7 as stated fails: the tunnel "web" to 10.0.0.5:22 without a local
    address gets the local address 127.0.0.1:22, not 0.0.0.0:22. *)
Lemma tunnel_local_default_not_any :
  let '(_, st') := tunnel_validate sample_env (mkTunnel "web" None "B" (Some 0%N))
                     (state_with ["10.0.0.5:22"] []) in
  exists l a, (t_local <$> tunnels st' !! "web") = Some (Some l) /\
    heap st' !! l = Some a /\ address a = "127.0.0.1:22"%string /\
    address a <> "0.0.0.0:22"%string.
Proof.
  vm_compute. exists 1%N, (mkAddress true "127.0.0.1:22" 22).
  repeat split. discriminate.
Qed.

Lemma alloc_address_state st s l st' :
  alloc_address st s = (l, st') ->
  l = next_loc st /\ st' = mkState (hosts st) (tunnels st) (<[l := new_address s]> (heap st))
    (N.succ (next_loc st)) (host_keys st) (identities st) (free_ports st) (log st).
Proof. unfold alloc_address. intros [= <- <-]. done. Qed.

Ltac solve_inv H :=
  repeat case_match; intros ?E; simplify_eq/=;
  try (match goal with H0 : validate_ptr _ _ _ _ _ _ _ _ = _ |- _ =>
         apply validate_ptr_state in H0 as [? ->] end);
  try (match goal with H0 : alloc_address _ _ = _ |- _ =>
         apply alloc_address_state in H0 as [-> ->] end);
  simpl in *;
  first [ done
        | match type of H with
          | ex _ => let l := fresh "l" in let Hl := fresh "Hl" in
                    destruct H as [l Hl]; eexists; (rewrite Hl || idtac); rewrite <- ?app_assoc; done
          end ].

Ltac inv_step H P :=
  match goal with
  | p : (_ * _)%type |- _ => destruct p
  | |- context [match ?e with pair _ _ => _ end] =>
      let E := fresh "E" in let s := fresh "st" in let p := fresh "p" in
      destruct e as [p s] eqn:E;
      let H' := fresh "H" in
      assert (H' : P s) by (revert E; clear - H; solve_inv H);
      clear H; rename H' into H
  | |- context [match ?e with Some _ => _ | None => _ end] =>
      lazymatch type of e with
      | option (_ * State)%type =>
          let E := fresh "E" in let s := fresh "st" in let p := fresh "p" in
          destruct e as [[p s]|] eqn:E; [|intros ?; discriminate];
          let H' := fresh "H" in
          assert (H' : P s) by (revert E; clear - H; solve_inv H);
          clear H; rename H' into H
      end
  end.

Lemma tunnel_validate_hosts E t st v st' :
  tunnel_validate E t st = (v, st') ->
  hosts st' = (if (trim_space (t_host t) =? "")%string then hosts st
               else match hosts st !! trim_space (t_host t) with
                    | Some hh => <[trim_space (t_host t) := set_h_is_host hh true]> (hosts st)
                    | None => hosts st end).
Proof.
  unfold tunnel_validate. cbv zeta.
  assert (H : hosts st = hosts st) by done.
  repeat inv_step H (fun s => hosts s = hosts st).
  rewrite H. destruct (trim_space (t_host t) =? "")%string;
    [|destruct (hosts st !! trim_space (t_host t))];
    intros [= <- <-]; by destruct (env_verbose E && _).
Qed.

Lemma tunnel_validate_log E t st v st' :
  tunnel_validate E t st = (v, st') -> exists l, log st' = log st ++ l.
Proof.
  unfold tunnel_validate. cbv zeta.
  remember (log st) as L eqn:HL.
  assert (H : exists l, log st = L ++ l) by (exists []; by rewrite app_nil_r).
  clear HL.
  repeat inv_step H (fun s => exists l, log s = L ++ l).
  intros [= <- <-]. destruct H as [l Hl].
  destruct (env_verbose E && _); simpl; rewrite Hl, <- ?app_assoc; eauto.
Qed.

Lemma tunnel_validate_ports E t st v st' :
  tunnel_validate E t st = (v, st') -> free_ports st' = free_ports st.
Proof.
  unfold tunnel_validate. cbv zeta.
  assert (H : free_ports st = free_ports st) by done.
  repeat inv_step H (fun s => free_ports s = free_ports st).
  intros [= <- <-]. by destruct (env_verbose E && _).
Qed.


Lemma host_stable_refl h : host_stable h h.
Proof. done. Qed.

#[local] Hint Resolve host_stable_refl : core.

Lemma tunnel_validate_stable E t st v st' :
  tunnel_validate E t st = (v, st') ->
  forall key h, hosts st !! key = Some h ->
  exists h', hosts st' !! key = Some h' /\ host_stable h h' /\ h_address h' = h_address h.
Proof.
  intros Ht key h Hk. rewrite (tunnel_validate_hosts _ _ _ _ _ Ht).
  destruct (trim_space (t_host t) =? "")%string; [eauto 10|].
  destruct (hosts st !! trim_space (t_host t)) as [hh|] eqn:Hh; [|eauto 10].
  destruct (decide (key = trim_space (t_host t))) as [->|Hne].
  - rewrite Hh in Hk. simplify_eq. simplify_map_eq. eexists; split; [done|].
    unfold host_stable, set_h_is_host; simpl. done.
  - rewrite lookup_insert_ne by congruence. eauto 10.
Qed.

Lemma free_port_state st r st' :
  free_port st = (r, st') -> st' = st \/ exists rs, free_ports st = r :: rs /\ st' = set_free_ports st rs.
Proof.
  unfold free_port. destruct (free_ports st) as [|x rs] eqn:Hp; intros [= <- <-]; eauto.
Qed.

(** The outcome of one step of validateJumpHosts for host key [k]. *)
Lemma jump_step_stable E k valid st v st' :
  (jump_step E k valid st = inl (v, st') \/ jump_step E k valid st = inr (v, st')) ->
  forall key h, hosts st !! key = Some h ->
  exists h', hosts st' !! key = Some h' /\ host_stable h h' /\
    (key <> k -> h_address h' = h_address h).
Proof.
  intros Hs key h Hk.
  destruct Hs as [Hs|Hs]; unfold jump_step in Hs; repeat case_match; simplify_eq;
    try (eexists; split; [eassumption|]; eauto; fail);
    repeat match goal with
    | H : free_port _ = _ |- _ => apply free_port_state in H as [->|[? [_ ->]]]
    | H : alloc_address _ _ = _ |- _ => apply alloc_address_state in H as [-> ->]
    end; cbn [hosts set_free_ports set_hosts] in *;
    try (eexists; split; [eassumption|]; eauto; fail).
  all: match goal with H : tunnel_validate _ _ _ = _ |- _ =>
         edestruct (tunnel_validate_stable _ _ _ _ _ H key h) as (hx & Hhx & Hsx & Hax);
         [cbn [hosts set_free_ports]; done|] end;
       destruct (decide (key = k)) as [->|Hne];
       [ rewrite lookup_alter, Hhx, decide_True by done; eexists; split; [reflexivity|]; split; [|done];
         destruct Hsx as (? & ? & ?); repeat split; simpl; auto
       | rewrite lookup_alter_ne by congruence; eauto ].
Qed.

Lemma jump_step_valid E k valid st v st' :
  (jump_step E k valid st = inl (v, st') -> v = true -> valid = true) /\
  (jump_step E k valid st = inr (v, st') -> v = false).
Proof.
  unfold jump_step. split; intros Hs; repeat case_match; simplify_eq; done.
Qed.

Lemma jump_step_log E k valid st v st' :
  (jump_step E k valid st = inl (v, st') \/ jump_step E k valid st = inr (v, st')) ->
  exists l, log st' = log st ++ l.
Proof.
  intros Hs. destruct Hs as [Hs|Hs]; unfold jump_step in Hs; repeat case_match; simplify_eq;
    try (exists []; by rewrite app_nil_r);
    try (eexists; reflexivity);
    repeat match goal with
    | H : free_port _ = _ |- _ => apply free_port_state in H as [->|[? [_ ->]]]
    | H : alloc_address _ _ = _ |- _ => apply alloc_address_state in H as [-> ->]
    end; cbn [log set_free_ports set_hosts] in *;
    try (exists []; by rewrite app_nil_r).
  all: match goal with H : tunnel_validate _ _ _ = _ |- _ =>
         apply tunnel_validate_log in H as [l Hl] end; cbn [log] in Hl; eauto.
Qed.

Lemma jump_step_ports E k valid st v st' :
  (jump_step E k valid st = inl (v, st') ->
     free_ports st' = free_ports st \/ exists r, free_ports st = r :: free_ports st') /\
  (jump_step E k valid st = inr (v, st') ->
     match free_ports st with Some _ :: _ => False | _ => True end).
Proof.
  unfold jump_step. split; intros Hs; repeat case_match; simplify_eq; auto;
    repeat match goal with
    | H : free_port _ = _ |- _ =>
        let Hf := fresh in
        pose proof H as Hf; unfold free_port in Hf;
        apply free_port_state in H as [->|[? [? ->]]]
    | H : alloc_address _ _ = _ |- _ => apply alloc_address_state in H as [-> ->]
    end; cbn [free_ports set_free_ports set_hosts] in *;
    try match goal with H : tunnel_validate _ _ _ = _ |- _ =>
         apply tunnel_validate_ports in H; cbn [free_ports] in H; rewrite H end;
    try (repeat case_match; simplify_eq; eauto; done).
Qed.

Lemma jump_loop_false E ks st v st' :
  jump_loop E ks false st = (v, st') -> v = false.
Proof.
  revert st. induction ks as [|k ks IH]; intros st; simpl; [congruence|].
  destruct (jump_step E k false st) as [[v1 st1]|[v1 st1]] eqn:Hs.
  - intros Hl. destruct v1; [|eauto].
    assert (false = true) by (by eapply (proj1 (jump_step_valid E k false st true st1))).
    discriminate.
  - intros [= <- <-]. by eapply (proj2 (jump_step_valid E k false st v1 st1)).
Qed.

Lemma jump_loop_log E ks valid st :
  exists l, log (jump_loop E ks valid st).2 = log st ++ l.
Proof.
  revert valid st. induction ks as [|k ks IH]; intros valid st; simpl.
  - exists []. by rewrite app_nil_r.
  - destruct (jump_step E k valid st) as [[v1 st1]|[v1 st1]] eqn:Hs.
    + destruct (jump_step_log E k valid st v1 st1 (or_introl Hs)) as [l1 Hl1].
      destruct (IH v1 st1) as [l2 Hl2]. rewrite Hl2, Hl1, <- app_assoc. eauto.
    + apply (jump_step_log E k valid st v1 st1 (or_intror Hs)).
Qed.

Lemma jump_loop_stable E ks valid st :
  forall key h, hosts st !! key = Some h ->
  exists h', hosts (jump_loop E ks valid st).2 !! key = Some h' /\ host_stable h h' /\
    (key ∉ ks -> h_address h' = h_address h).
Proof.
  revert valid st. induction ks as [|k ks IH]; intros valid st key h Hk; simpl.
  - eexists; split; [done|]. eauto.
  - destruct (jump_step E k valid st) as [[v1 st1]|[v1 st1]] eqn:Hs.
    + destruct (jump_step_stable E k valid st v1 st1 (or_introl Hs) key h Hk)
        as (h1 & Hh1 & (Hn1 & Hj1 & Hi1) & Ha1).
      destruct (IH v1 st1 key h1 Hh1) as (h2 & Hh2 & (Hn2 & Hj2 & Hi2) & Ha2).
      exists h2. split; [done|]. split; [repeat split; congruence || auto|].
      intros Hnin. rewrite Ha2, Ha1; [done| |]; set_solver.
    + destruct (jump_step_stable E k valid st v1 st1 (or_intror Hs) key h Hk)
        as (h1 & Hh1 & Hs1 & Ha1).
      exists h1. split; [done|]. split; [done|]. intros Hnin. apply Ha1. set_solver.
Qed.

Lemma jump_step_chain E k valid st h j :
  hosts st !! k = Some h -> h_is_host h = true -> h_jump_host h <> ""%string ->
  hosts st !! h_jump_host h = Some j -> h_jump_host j <> ""%string ->
  jump_step E k valid st = inl (false, emit st (MsgMultiHop (h_name h))).
Proof.
  intros Hk Hi Hj Hjj Hj2. unfold jump_step. rewrite Hk, Hi.
  rewrite (proj2 (String.eqb_neq _ _) Hj). simpl. rewrite Hjj.
  rewrite (proj2 (String.eqb_neq _ _) Hj2). done.
Qed.

Lemma jump_loop_chain E ks valid st k h j :
  k ∈ ks -> hosts st !! k = Some h -> h_is_host h = true -> h_jump_host h <> ""%string ->
  hosts st !! h_jump_host h = Some j -> h_jump_host j <> ""%string ->
  (jump_loop E ks valid st).1 = false /\
  (Forall (fun r => r <> None) (free_ports st) -> (length ks <= length (free_ports st))%nat ->
   MsgMultiHop (h_name h) ∈ log (jump_loop E ks valid st).2).
Proof.
  revert valid st h j. induction ks as [|k0 ks IH]; intros valid st h j Hin Hk Hi Hj Hjj Hj2.
  { set_solver. }
  simpl. destruct (decide (k0 = k)) as [->|Hne].
  - rewrite (jump_step_chain E k valid st h j Hk Hi Hj Hjj Hj2).
    destruct (jump_loop E ks false _) as [v' st'] eqn:Hl. split.
    + simpl. by eapply jump_loop_false.
    + intros _ _. destruct (jump_loop_log E ks false (emit st (MsgMultiHop (h_name h)))) as [l Hlog].
      rewrite Hl in Hlog. simpl in *. rewrite Hlog. set_solver.
  - assert (Hin' : k ∈ ks) by set_solver.
    destruct (jump_step E k0 valid st) as [[v1 st1]|[v1 st1]] eqn:Hs.
    + destruct (jump_step_stable E k0 valid st v1 st1 (or_introl Hs) k h Hk)
        as (h1 & Hh1 & (Hn1 & Hj1 & Hi1) & _).
      destruct (jump_step_stable E k0 valid st v1 st1 (or_introl Hs) (h_jump_host h) j Hjj)
        as (j1 & Hjj1 & (_ & Hjb & _) & _).
      edestruct (IH v1 st1 h1 j1) as [IH1 IH2]; [done|done|auto|congruence|congruence|congruence|].
      split; [done|]. intros Hall Hlen. rewrite <- Hn1. apply IH2.
      * destruct (proj1 (jump_step_ports E k0 valid st v1 st1) Hs) as [->|[r Hr]]; [done|].
        rewrite Hr in Hall. by inversion Hall.
      * destruct (proj1 (jump_step_ports E k0 valid st v1 st1) Hs) as [->|[r Hr]];
          [simpl in Hlen; lia|]. rewrite Hr in Hlen. simpl in *. lia.
    + split; [by apply (proj2 (jump_step_valid E k0 valid st v1 st1))|].
      intros Hall Hlen. exfalso.
      pose proof (proj2 (jump_step_ports E k0 valid st v1 st1) Hs) as Hp.
      destruct (free_ports st) as [|[r|] rs]; simpl in Hlen; [lia|done|].
      inversion Hall; congruence.
Qed.

Ltac step_any :=
  match goal with
  | p : (_ * _)%type |- _ => destruct p
  | |- context [match ?e with pair _ _ => _ end] =>
      let E := fresh "E" in destruct e as [?p ?s] eqn:E
  | |- context [match ?e with Some _ => _ | None => _ end] =>
      lazymatch type of e with
      | option (_ * State)%type =>
          let E := fresh "E" in destruct e as [[?p ?s]|] eqn:E; [|intros ?; discriminate]
      end
  end.

Lemma host_validate_self_jump E du h st v st' :
  h_jump_host h <> ""%string -> h_jump_host h = trim_space (h_name h) ->
  host_validate E du h st = Some (v, st') ->
  v = false /\ MsgJumpSelf (trim_space (h_name h)) ∈ log st'.
Proof.
  intros Hj Hn. unfold host_validate. cbv zeta.
  repeat step_any.
  match goal with H : (if (h_jump_host h =? "")%string then _ else _) = _ |- _ =>
    rewrite (proj2 (String.eqb_neq _ _) Hj), Hn, String.eqb_refl in H end.
  simplify_eq. intros [= <- <-]. split; [done|].
  rewrite andb_false_r. simpl. set_solver.
Qed.

Lemma host_validate_log E du h st v st' :
  host_validate E du h st = Some (v, st') -> exists l, log st' = log st ++ l.
Proof.
  unfold host_validate. cbv zeta.
  remember (log st) as L eqn:HL.
  assert (H : exists l, log st = L ++ l) by (exists []; by rewrite app_nil_r).
  clear HL.
  repeat inv_step H (fun s => exists l, log s = L ++ l).
  intros [= <- <-]. destruct H as [l Hl].
  destruct (env_verbose E && _); simpl; rewrite Hl, <- ?app_assoc; eauto.
Qed.

Lemma validate_hosts_log E du hs valid st v st' :
  validate_hosts E du hs valid st = Some (v, st') -> exists l, log st' = log st ++ l.
Proof.
  revert valid st. induction hs as [|h hs IH]; intros valid st; simpl.
  - intros [= <- <-]. exists []. by rewrite app_nil_r.
  - destruct (host_validate E du h st) as [[ok st1]|] eqn:Hv; [|discriminate].
    intros Hr. destruct (host_validate_log _ _ _ _ _ _ Hv) as [l1 H1].
    destruct (IH (valid && ok) st1 Hr) as [l2 H2]. rewrite H2, H1, <- app_assoc. eauto.
Qed.

Lemma validate_hosts_false E du hs st v st' :
  validate_hosts E du hs false st = Some (v, st') -> v = false.
Proof.
  revert st. induction hs as [|h hs IH]; intros st; simpl; [congruence|].
  destruct (host_validate E du h st) as [[ok st1]|]; [apply IH|discriminate].
Qed.

Lemma validate_hosts_self_jump E du hs valid st h v st' :
  In h hs -> h_jump_host h <> ""%string -> h_jump_host h = trim_space (h_name h) ->
  validate_hosts E du hs valid st = Some (v, st') ->
  v = false /\ MsgJumpSelf (trim_space (h_name h)) ∈ log st'.
Proof.
  intros Hin Hj Hn. revert valid st. induction hs as [|h0 hs IH]; intros valid st; [done|].
  simpl. destruct (host_validate E du h0 st) as [[ok st1]|] eqn:Hv; [|discriminate].
  intros Hr. destruct Hin as [->|Hin].
  - destruct (host_validate_self_jump _ _ _ _ _ _ Hj Hn Hv) as [-> Hm].
    rewrite andb_false_r in Hr. split; [exact (validate_hosts_false _ _ _ _ _ _ Hr)|].
    destruct (validate_hosts_log E du hs false st1 v st' Hr) as [l Hl]. rewrite Hl. set_solver.
  - by apply (IH Hin (valid && ok) st1).
Qed.

Lemma validate_tunnels_log E ts valid st :
  exists l, log (validate_tunnels E ts valid st).2 = log st ++ l.
Proof.
  revert valid st. induction ts as [|t ts IH]; intros valid st; simpl.
  - exists []. by rewrite app_nil_r.
  - destruct (tunnel_validate E t st) as [ok st1] eqn:Hv.
    destruct (tunnel_validate_log _ _ _ _ _ Hv) as [l1 H1].
    destruct (IH (valid && ok) st1) as [l2 H2]. rewrite H2, H1, <- app_assoc. eauto.
Qed.

Lemma validate_tunnels_false E ts st :
  (validate_tunnels E ts false st).1 = false.
Proof.
  revert st. induction ts as [|t ts IH]; intros st; simpl; [done|].
  destruct (tunnel_validate E t st). apply IH.
Qed.

Lemma prune_unused_log st : exists l, log (prune_unused st) = log st ++ l.
Proof.
  unfold prune_unused. cbn [log set_hosts].
  generalize (filter (λ kv : string * Host, negb (h_is_host kv.2 || h_is_jump_host kv.2))
               (map_to_list (hosts st))).
  intros kvs. revert st. induction kvs as [|kv kvs IH]; intros st; simpl.
  - exists []. by rewrite app_nil_r.
  - destruct (IH (emit st (MsgHostUnused kv.1))) as [l Hl]. rewrite Hl. simpl.
    rewrite <- app_assoc. eauto.
Qed.

(** C5, as the code has it. When Configuration.Validate returns (no
    panic in Host.Validate), a host whose non-empty jump_host equals its
    own trimmed name makes it return false and print the self-reference
    error for it. A host that validateJumpHosts examines after the host and
    tunnel loops (its key is in the iteration order of the Hosts map, it is
    a tunnel target (isHost), and its non-empty jump host is defined and
    itself has a jump host) makes it return false; when every freePort
    result is a port and there is one per key of that order, the chaining
    error naming the host is printed. *)
Theorem config_rejects_jump_chains E du hs ts order st v st' :
  config_validate E du hs ts order st = Some (v, st') ->
  (forall h, In h hs -> h_jump_host h <> ""%string -> h_jump_host h = trim_space (h_name h) ->
     v = false /\ MsgJumpSelf (trim_space (h_name h)) ∈ log st') /\
  (forall v2 st2 k h j,
     validate_entries E du hs ts st = Some (v2, st2) ->
     k ∈ order st2 -> hosts st2 !! k = Some h -> h_is_host h = true ->
     h_jump_host h <> ""%string ->
     hosts st2 !! h_jump_host h = Some j -> h_jump_host j <> ""%string ->
     v = false /\
     (Forall (fun r => r <> None) (free_ports st2) ->
      (length (order st2) <= length (free_ports st2))%nat ->
      MsgMultiHop (h_name h) ∈ log st')).
Proof.
  unfold config_validate, validate_entries, validate_jump_hosts.
  destruct (validate_hosts E du hs true st) as [[v1 st1]|] eqn:H1; [|discriminate].
  destruct (validate_tunnels E ts v1 st1) as [v2 st2] eqn:H2.
  destruct (jump_loop E (order st2) true st2) as [ok st3] eqn:H3.
  intros [= <- <-]. split.
  - intros h Hin Hj Hn.
    destruct (validate_hosts_self_jump E du hs true st h v1 st1 Hin Hj Hn H1) as [Hf Hm].
    subst v1.
    pose proof (validate_tunnels_false E ts st1) as Hf2. rewrite H2 in Hf2. simpl in Hf2.
    subst v2. split; [done|].
    destruct (validate_tunnels_log E ts false st1) as [l2 Hl2]. rewrite H2 in Hl2.
    destruct (jump_loop_log E (order st2) true st2) as [l3 Hl3]. rewrite H3 in Hl3.
    destruct (prune_unused_log st3) as [l4 Hl4]. cbn [fst snd] in Hl2, Hl3.
    rewrite Hl4, Hl3, Hl2. set_solver.
  - intros v2' st2' k h j [= <- <-] Hk Hh Hi Hj Hjj Hj2.
    destruct (jump_loop_chain E (order st2) true st2 k h j Hk Hh Hi Hj Hjj Hj2) as [Hf Hm].
    rewrite H3 in Hf, Hm. simpl in Hf, Hm. subst ok. rewrite andb_false_r. split; [done|].
    intros Hall Hlen. specialize (Hm Hall Hlen).
    destruct (prune_unused_log st3) as [l4 Hl4]. rewrite Hl4. set_solver.
Qed.

Lemma tunnel_validate_local E t st v st' l a :
  t_local t = Some l -> heap st !! l = Some a -> is_blank a = false ->
  t_forward t <> Some l ->
  tunnel_validate E t st = (v, st') ->
  tunnels st' !! trim_space (t_name t)
    = Some (mkTunnel (trim_space (t_name t)) (Some l) (trim_space (t_host t)) (t_forward t)) /\
  heap st' !! l = Some (fst (env_validate E "tunnel" (trim_space (t_name t)) "local address" true false a)).
Proof.
  intros Hl Ha Hnb Hf. unfold tunnel_validate. cbv zeta. rewrite Hl.
  next_state v1 st1 E1.
  assert (heap st1 = heap st) as H1 by (case_match; simplify_eq; done).
  next_state v2 st2 E2.
  assert (heap st2 = heap st) as H2 by (case_match; simplify_eq; done).
  next_state v3 st3 E3.
  assert (heap st3 !! l = Some a) as H3.
  { clear E1 E2. revert E3. unfold validate_ptr.
    repeat case_match; intros; simplify_eq; cbn [heap set_heap emit] in *; try congruence;
    rewrite lookup_insert_ne by congruence; congruence. }
  unfold blank_ptr at 1. rewrite H3, Hnb. cbn [andb].
  unfold blank_ptr at 1. rewrite H3, Hnb.
  unfold validate_ptr at 1. rewrite H3.
  destruct (env_validate E "tunnel" _ "local address" true false a) as [a2 ok2] eqn:Hv2.
  cbn [fst].
  next_state v4 st4 E4.
  assert (heap st4 = <[l:=a2]> (heap st3)) as H4
    by (revert E4; repeat case_match; intros; simplify_eq; done).
  intros [= <- <-]. cbn [tunnels set_tunnels heap].
  split; [by simplify_map_eq|].
  destruct (env_verbose E && v4); cbn [heap emit]; rewrite H4; by simplify_map_eq.
Qed.

(** C1, as the code has it. In validateJumpHosts, for the host [h] under
    key [k] that a tunnel targets (isHost) and whose jump host [j] is
    defined and has no jump host of its own, when freePort gives the port
    [p]: the step registers under "<j's name> jumphost" a tunnel whose
    local address is a new Address object made from "127.0.0.1:<p>" (and
    validated) and whose forward address is h's address object; h's
    address becomes that local object, and stays so for the rest of the
    loop. The new object goes to the first free location, assumed unused
    and different from h's address. *)
Theorem jump_host_tunnel E k h j p ps ks valid st :
  hosts st !! k = Some h -> h_jump_host h <> ""%string -> h_is_host h = true ->
  hosts st !! h_jump_host h = Some j -> h_jump_host j = ""%string ->
  free_ports st = Some p :: ps ->
  heap st !! next_loc st = None -> h_address h <> Some (next_loc st) ->
  k ∉ ks ->
  exists st1, jump_step E k valid st = inl (valid, st1) /\
    tunnels st1 !! trim_space (h_name j +:+ " jumphost")
      = Some (mkTunnel (trim_space (h_name j +:+ " jumphost")) (Some (next_loc st))
                (trim_space (h_jump_host h)) (h_address h)) /\
    heap st1 !! next_loc st
      = Some (fst (env_validate E "tunnel" (trim_space (h_name j +:+ " jumphost"))
                     "local address" true false (new_address ("127.0.0.1:" +:+ itoa p)))) /\
    (exists h1, hosts st1 !! k = Some h1 /\ h_address h1 = Some (next_loc st)) /\
    (exists h2, hosts (jump_loop E ks valid st1).2 !! k = Some h2 /\
       h_address h2 = Some (next_loc st)).
Proof.
  intros Hk Hj Hi Hjj Hj2 Hp Hfresh Hne Hnin.
  unfold jump_step. rewrite Hk, Hi, (proj2 (String.eqb_neq _ _) Hj). cbn [negb andb].
  rewrite Hjj, Hj2. cbn [negb String.eqb].
  unfold free_port. rewrite Hp. unfold alloc_address. cbn [set_free_ports next_loc heap hosts].
  set (jt := mkTunnel (h_name j +:+ " jumphost") (Some (next_loc st)) (h_jump_host h) (h_address h)).
  set (sa := mkState _ _ _ _ _ _ _ _).
  destruct (tunnel_validate E jt sa) as [vt st2] eqn:Ht.
  assert (Hkt : hosts sa !! k = Some h) by done.
  destruct (tunnel_validate_stable _ _ _ _ _ Ht k h Hkt) as (hx & Hhx & _ & _).
  destruct (tunnel_validate_local E jt sa vt st2 (next_loc st) (new_address ("127.0.0.1:" +:+ itoa p)))
    as [Htun Hheap]; [done| by simplify_map_eq | done | done | done |].
  eexists. split; [reflexivity|].
  cbn [tunnels heap hosts set_hosts]. split; [exact Htun|]. split; [exact Hheap|].
  assert (Hh1 : alter (λ h0 : Host, set_h_address h0 (Some (next_loc st))) k (hosts st2) !! k
              = Some (set_h_address hx (Some (next_loc st)))) by (by rewrite lookup_alter_eq, Hhx).
  split; [eexists; split; [exact Hh1|done]|].
  destruct (jump_loop_stable E ks valid (set_hosts st2
     (alter (λ h0 : Host, set_h_address h0 (Some (next_loc st))) k (hosts st2))) k _ Hh1)
    as (h2 & Hh2 & _ & Ha2).
  exists h2. split; [done|]. by rewrite Ha2.
Qed.

(** A tunnel "web" through B, B with jump host C, C with jump host D. *)
Lemma config_rejects_jump_chains_witness :
  match config_validate sample_env "me" chain_hosts [chain_tunnel] key_order chain_state with
  | Some (v, st') =>
      (forall h, In h chain_hosts -> h_jump_host h <> ""%string ->
         h_jump_host h = trim_space (h_name h) ->
         v = false /\ MsgJumpSelf (trim_space (h_name h)) ∈ log st') /\
      (forall v2 st2 k h j,
         validate_entries sample_env "me" chain_hosts [chain_tunnel] chain_state = Some (v2, st2) ->
         k ∈ key_order st2 -> hosts st2 !! k = Some h -> h_is_host h = true ->
         h_jump_host h <> ""%string ->
         hosts st2 !! h_jump_host h = Some j -> h_jump_host j <> ""%string ->
         v = false /\
         (Forall (fun r => r <> None) (free_ports st2) ->
          (length (key_order st2) <= length (free_ports st2))%nat ->
          MsgMultiHop (h_name h) ∈ log st'))
  | None => False
  end.
Proof.
  destruct (config_validate sample_env "me" chain_hosts [chain_tunnel] key_order chain_state) as [[v st']|] eqn:Hc; [|vm_compute in Hc; discriminate Hc].
  apply (config_rejects_jump_chains sample_env "me" chain_hosts [chain_tunnel] key_order
    chain_state v st').
  exact Hc.
Defined.

(** C5 as stated fails: B with jump host C, C with jump host D and no
    tunnel: Configuration.Validate returns true, with no chaining error. *)
Lemma config_accepts_untargeted_chain :
  (fst <$> config_validate sample_env "me" chain_hosts [] key_order chain_state) = Some true /\
  ((fun r => log r.2) <$> config_validate sample_env "me" chain_hosts [] key_order chain_state)
    = Some [MsgHostUnused "C"; MsgHostUnused "B"; MsgHostUnused "D"].
Proof. vm_compute. split; reflexivity. Qed.

(** Host B with jump host A, targeted by the tunnel "web"; freePort gives
    40000. *)
Lemma jump_host_tunnel_witness :
  let st := jb_entries [jb_tunnel] in
  let h := host_at st "B" in
  let j := host_at st "A" in
  exists st1, jump_step sample_env "B" true st = inl (true, st1) /\
    tunnels st1 !! trim_space (h_name j +:+ " jumphost")
      = Some (mkTunnel (trim_space (h_name j +:+ " jumphost")) (Some (next_loc st))
                (trim_space (h_jump_host h)) (h_address h)) /\
    heap st1 !! next_loc st
      = Some (fst (env_validate sample_env "tunnel" (trim_space (h_name j +:+ " jumphost"))
                     "local address" true false (new_address ("127.0.0.1:" +:+ itoa 40000)))) /\
    (exists h1, hosts st1 !! "B" = Some h1 /\ h_address h1 = Some (next_loc st)) /\
    (exists h2, hosts (jump_loop sample_env [] true st1).2 !! "B" = Some h2 /\
       h_address h2 = Some (next_loc st)).
Proof.
  apply (jump_host_tunnel sample_env "B" (host_at (jb_entries [jb_tunnel]) "B")
    (host_at (jb_entries [jb_tunnel]) "A") 40000 [] [] true (jb_entries [jb_tunnel])).
  - vm_compute. reflexivity.
  - vm_compute. discriminate.
  - vm_compute. reflexivity.
  - vm_compute. reflexivity.
  - vm_compute. reflexivity.
  - vm_compute. reflexivity.
  - vm_compute. reflexivity.
  - vm_compute. discriminate.
  - apply not_elem_of_nil.
Defined.

(** C1 as stated fails for a host no tunnel targets: B with jump host A
    keeps its configured address (location 1) and no "A jumphost" tunnel
    is made. *)
Lemma jump_host_untargeted_kept :
  let st := jb_entries [] in
  let st' := (validate_jump_hosts sample_env (key_order st) st).2 in
  (h_address <$> hosts st' !! "B") = Some (Some 1%N) /\ tunnels st' = ∅.
Proof. vm_compute. split; reflexivity. Qed.

End ConfigFacts.

Module AddrFacts.
Import GoStr Addr Samples.

(** C6 (the code accepts ports the claim excludes, and marks valid
    addresses that are not ip:port). ValidateAddress in unnamed/part_000:
    (1) "10.0.0.1:65536" is marked valid with port 65536, whatever the
    resolver and the remote flag, since the range check is
    [i < 1 || i > 65536]; (2) with remote set, a host name that does not
    resolve is kept and the address stays valid, but it becomes
    "example.org:22:22", the port added twice; (3) a name with only an
    IPv6 address is reported but left valid, and also gets the port twice. *)
Theorem validate_address_port_bound dns remote :
  validate_address dns remote (new_address "10.0.0.1:65536")
    = (mkAddress true "10.0.0.1:65536" 65536, true) /\
  validate_address no_dns true (new_address "example.org:22")
    = (mkAddress true "example.org:22:22" 22, true) /\
  validate_address v6_dns false (new_address "v6.example:22")
    = (mkAddress true "v6.example:22:22" 22, true).
Proof.
  split; [|split; vm_compute; reflexivity].
  destruct remote; vm_compute; reflexivity.
Qed.

End AddrFacts.

Module WireFacts.
Import GoStr Json Wire.

(** C8. When a read completes a frame (its last byte is zero) and the
    bytes accumulated before the first zero byte do not parse as a list of
    TunnelStats, receiveStats prints nothing for that frame, empties its
    buffer and goes on with the next read, exactly as if the frame had
    never been sent: it does not disconnect or stop. *)
Theorem receive_discards_bad_frame bs str d rs :
  (0 < length d)%nat ->
  nth (length d - 1) d 1 = 0 ->
  parse_frame (str ++ d ++ drop (length d) bs) = None ->
  receive_loop bs str (ReadData d :: rs) = receive_loop (d ++ drop (length d) bs) [] rs.
Proof.
  intros Hn Hz Hp. cbn [receive_loop].
  destruct (length d) as [|n] eqn:Hl; [lia|]. cbn [Nat.eqb].
  rewrite app_nth1 by lia. rewrite Hz. cbn [Z.eqb]. rewrite Hp. reflexivity.
Qed.

(** A subscriber that receives "{" and a zero byte, then a good frame. *)
Lemma receive_discards_bad_frame_witness :
  receive_loop (repeat 0 256) [] (ReadData [123; 0] :: [ReadData (publish [mkStats [65] 1 2 3])])
    = receive_loop ([123; 0] ++ drop 2 (repeat 0 256)) [] [ReadData (publish [mkStats [65] 1 2 3])].
Proof.
  apply receive_discards_bad_frame; vm_compute; [lia | reflexivity | reflexivity].
Defined.

End WireFacts.

Module SessionFacts.
Import GoStr Config Session.

(** C9, corrected. For a host with no SSH session (Open never
    succeeded), Host.Dial panics on a nil dereference exactly when the
    address splits into host and port and the port parses as a 16-bit
    number: x/crypto/ssh checks the address before it uses the client.
    On any other address it returns (nil, false) without a panic. *)
Theorem dial_without_session accept h address :
  h_client h = None ->
  host_dial accept h address =
    match split_host_port address with
    | Some (_, ps) => match parse_uint16 ps with
                      | Some _ => Panics
                      | None => Returns None false
                      end
    | None => Returns None false
    end.
Proof.
  intros Hc. unfold host_dial, client_dial. rewrite Hc.
  destruct (split_host_port address) as [[host ps]|]; [|reflexivity].
  destruct (parse_uint16 ps); reflexivity.
Qed.

(** A host that was never opened, dialled at 10.0.0.5:22 (a panic) and at
    10.0.0.5:65536 (no panic). *)
Lemma dial_without_session_witness :
  host_dial (fun _ _ _ => true) (Samples.sample_host "B" "" 0%N) "10.0.0.5:22" = Panics /\
  host_dial (fun _ _ _ => true) (Samples.sample_host "B" "" 0%N) "10.0.0.5:65536"
    = Returns None false.
Proof.
  split.
  - rewrite (dial_without_session _ (Samples.sample_host "B" "" 0%N) _ eq_refl). vm_compute. reflexivity.
  - rewrite (dial_without_session _ (Samples.sample_host "B" "" 0%N) _ eq_refl). vm_compute. reflexivity.
Defined.

(** C9 as stated fails: a host without a session dialled at
    "10.0.0.5:65536" (an address ValidateAddress accepts) returns
    (nil, false) instead of panicking. *)
Lemma dial_nil_session_no_panic :
  host_dial (fun _ _ _ => true) (Samples.sample_host "B" "" 0%N) "10.0.0.5:65536"
    = Returns None false.
Proof. vm_compute. reflexivity. Qed.

End SessionFacts.

Module BroadcastFacts.
Import Broadcast.

(** Once [updated] is set with no wake-up pending, nothing clears it:
    later signals are ignored and no broadcast ever happens. *)
Lemma run_stuck st evs :
  updated st = true -> pending st = None -> run st evs = [].
Proof.
  revert st. induction evs as [|[t e] evs IH]; intros st Hu Hp; simpl; rewrite Hp; [done|].
  simpl. apply IH.
  - destruct e; simpl; [unfold on_signal; rewrite Hu|]; done.
  - destruct e; simpl; [unfold on_signal; rewrite Hu|]; done.
Qed.

(** C3 (the code departs from the claim). A signal that arrives while no
    subscriber is connected sets [updated] and starts no goroutine, so
    nothing ever clears [updated]: from then on every signal is ignored
    and no broadcast is made, whatever subscribers connect and however
    long the system has been idle. *)
Theorem signal_without_subscribers_blocks t0 t evs :
  run (start t0) ((t, Signal) :: evs) = [].
Proof. simpl. apply run_stuck; done. Qed.

End BroadcastFacts.

Module RelayFacts.
Import GoStr Json Relay.

Lemma wrap64_id z : int64_min <= z <= int64_max -> wrap64 z = z.
Proof.
  unfold wrap64, int64_min, int64_max. intros Hz.
  rewrite Z.mod_small; [lia|]. split; [lia|].
  replace (2 ^ 64) with (2 ^ 63 * 2) by reflexivity. lia.
Qed.

Lemma wrap64_add z n : wrap64 (wrap64 z + n) = wrap64 (z + n).
Proof.
  unfold wrap64. f_equal.
  replace ((z + 2 ^ 63) mod 2 ^ 64 - 2 ^ 63 + n + 2 ^ 63)
    with ((z + 2 ^ 63) mod 2 ^ 64 + n) by ring.
  rewrite Z.add_mod_idemp_l by lia. f_equal. ring.
Qed.

Lemma counter_count read s n : counter read (count read s n) = wrap64 (counter read s + n).
Proof. by destruct read. Qed.

Lemma other_counter_count read s n : counter (negb read) (count read s n) = counter (negb read) s.
Proof. by destruct read. Qed.





End RelayFacts.

Module JsonFacts.
Import GoStr Json Wire DecimalFacts DecimalN.

Ltac zbool :=
  repeat match goal with
  | H : (_ <? _) = true |- _ => apply Z.ltb_lt in H
  | H : (_ <? _) = false |- _ => apply Z.ltb_ge in H
  | H : (_ <=? _) = true |- _ => apply Z.leb_le in H
  | H : (_ <=? _) = false |- _ => apply Z.leb_gt in H
  | H : Z.eqb _ _ = true |- _ => apply Z.eqb_eq in H
  | H : Z.eqb _ _ = false |- _ => apply Z.eqb_neq in H
  | H : (_ && _) = true |- _ => apply andb_true_iff in H as [? ?]
  | H : (_ && _) = false |- _ => apply andb_false_iff in H as [?|?]
  | H : (_ || _) = true |- _ => apply orb_true_iff in H as [?|?]
  | H : (_ || _) = false |- _ => apply orb_false_iff in H as [? ?]
  | H : in_range _ _ _ = _ |- _ => unfold in_range in H
  | H : cont _ = _ |- _ => unfold cont in H
  | H : is_surrogate _ = _ |- _ => unfold is_surrogate in H
  end.

Ltac rw_bools :=
  repeat match goal with
  | H : ?x = true |- context [?x] => rewrite H
  | H : ?x = false |- context [?x] => rewrite H
  end.

Lemma decode_valid b0 rest c n :
  Forall byte_ok (b0 :: rest) -> decode_rune (b0 :: rest) = (c, n) ->
  ((c =? rune_error) && (n =? 1)%nat) = false ->
  (1 <= n <= length (b0 :: rest))%nat /\ encode_rune c = take n (b0 :: rest) /\
  (forall t, decode_rune (take n (b0 :: rest) ++ t) = (c, n)) /\
  (128 <= b0 -> Forall (fun b => 128 <= b) (take n (b0 :: rest))).
Proof.
  intros Hb Hd Hv. unfold decode_rune in Hd.
  repeat (case_match; simplify_eq); try (vm_compute in Hv; discriminate).
  all: split; [simpl; lia|].
  all: split; [|split; [intros t; simpl; rw_bools; reflexivity|]].
  all: repeat match goal with H : Forall _ (_ :: _) |- _ => inversion H; clear H; subst end;
    unfold byte_ok in *; zbool.
  all: try (intros; simpl; repeat constructor; lia).
  all: unfold encode_rune; repeat case_match; zbool; try lia; simpl; repeat f_equal;
    Z.div_mod_to_equations; lia.
Qed.

Lemma hex_val_digit n : 0 <= n < 16 -> hex_val (hex_digit n) = Some n.
Proof.
  intros Hn. rewrite <- (Z2Nat.id n) by lia.
  assert (Hk : (Z.to_nat n < 16)%nat) by lia.
  destruct (Z.to_nat n) as [|[|[|[|[|[|[|[|[|[|[|[|[|[|[|[|k]]]]]]]]]]]]]]]];
    [reflexivity..|lia].
Qed.

Lemma get4_u_escape r t : 0 <= r < 65536 -> get4 (drop 2 (u_escape r) ++ t) = Some r.
Proof.
  intros Hr. unfold u_escape. simpl.
  rewrite !hex_val_digit by (Z.div_mod_to_equations; lia).
  f_equal.
  replace (r / 4096) with (((r / 16) / 16) / 16) by (rewrite !Z.div_div by lia; reflexivity).
  replace (r / 256) with ((r / 16) / 16) by (rewrite !Z.div_div by lia; reflexivity).
  Z.div_mod_to_equations. lia.
Qed.

Lemma str_step_u_escape r t :
  0 <= r < 65536 -> is_surrogate r = false ->
  str_step (u_escape r ++ t) = SChunk (encode_rune r) t.
Proof.
  intros Hr Hs.
  change (u_escape r ++ t) with (92 :: 117 :: (drop 2 (u_escape r) ++ t)).
  cbn [str_step escape_step]. simpl (92 =? 34). simpl (92 =? 92). cbn iota.
  simpl (117 =? 34). simpl (117 =? 92). simpl (117 =? 47). simpl (117 =? 98).
  simpl (117 =? 102). simpl (117 =? 110). simpl (117 =? 114). simpl (117 =? 116).
  simpl (117 =? 117). cbn iota.
  rewrite get4_u_escape by done. rewrite Hs. reflexivity.
Qed.

Lemma encode_ascii b : 0 <= b < 128 -> encode_rune b = [b].
Proof.
  intros Hb. unfold encode_rune. repeat case_match; zbool; try lia; done.
Qed.

Lemma str_step_ascii b t : 0 <= b < 128 -> str_step (enc_ascii b ++ t) = SChunk [b] t.
Proof.
  intros Hb. unfold enc_ascii.
  destruct (html_safe b) eqn:Hs.
  { unfold html_safe in Hs. zbool. simpl.
    assert (E1 : (b =? 34) = false) by (apply Z.eqb_neq; lia).
    assert (E2 : (b =? 92) = false) by (apply Z.eqb_neq; lia).
    assert (E3 : (b <? 32) = false) by (apply Z.ltb_ge; lia).
    assert (E4 : (b <? 128) = true) by (apply Z.ltb_lt; lia).
    rewrite E1, E2, E3, E4. reflexivity. }
  destruct ((b =? 92) || (b =? 34)) eqn:Hq.
  { zbool; subst; reflexivity. }
  repeat (case_match; [zbool; subst; reflexivity|]).
  rewrite str_step_u_escape, encode_ascii; [done|lia|..].
  - lia.
  - unfold is_surrogate, in_range. apply andb_false_iff. left. apply Z.leb_gt. lia.
Qed.

Lemma str_step_multi b r c size t :
  128 <= b < 256 -> (1 <= size <= length (b :: r))%nat ->
  (forall t, decode_rune (take size (b :: r) ++ t) = (c, size)) ->
  encode_rune c = take size (b :: r) ->
  str_step (take size (b :: r) ++ t) = SChunk (take size (b :: r)) t.
Proof.
  intros Hb Hsz Hdec Henc.
  destruct size as [|k]; [lia|].
  pose proof (Hdec t) as Hd. cbn [take app] in *.
  cbn [str_step].
  assert (E1 : (b =? 34) = false) by (apply Z.eqb_neq; lia).
  assert (E2 : (b =? 92) = false) by (apply Z.eqb_neq; lia).
  assert (E3 : (b <? 32) = false) by (apply Z.ltb_ge; lia).
  assert (E4 : (b <? 128) = false) by (apply Z.ltb_ge; lia).
  rewrite E1, E2, E3, E4, Hd, Henc.
  f_equal. change (b :: take k r ++ t) with ((b :: take k r) ++ t).
  rewrite drop_app_length'; [done|]. simpl. rewrite length_take. simpl in Hsz. lia.
Qed.

Lemma enc_str_body n s rest fuel :
  (length s <= n)%nat -> Forall byte_ok s -> utf8_ok n s = true ->
  (length (enc_str n s) < fuel)%nat ->
  str_body fuel (enc_str n s ++ 34 :: rest) = Some (s, rest).
Proof.
  revert s fuel. induction n as [|n IH]; intros s fuel Hl Hb Hu Hf.
  - destruct s; [|simpl in Hl; lia]. destruct fuel; [simpl in Hf; lia|]. reflexivity.
  - destruct s as [|b r]. { destruct fuel; [simpl in Hf; lia|]. reflexivity. }
    cbn [utf8_ok] in Hu. cbn [enc_str] in *.
    destruct (decode_rune (b :: r)) as [c size] eqn:Hd.
    destruct ((c =? rune_error) && (size =? 1)%nat) eqn:Hv; [discriminate|].
    destruct (decode_valid b r c size Hb Hd Hv) as (Hsz & Henc & Hdec & Hhi).
    assert (Hbo : 0 <= b < 256) by (inversion Hb; done).
    assert (Hl' : (length (drop size (b :: r)) <= n)%nat) by (rewrite length_drop; simpl in *; lia).
    assert (Hb' : Forall byte_ok (drop size (b :: r))) by (by apply Forall_drop).
    destruct fuel as [|f]; [simpl in Hf; lia|].
    destruct (b <? 128) eqn:Hasc.
    + assert (size = 1%nat /\ c = b) as [-> ->]
        by (unfold decode_rune in Hd; rewrite Hasc in Hd; by inversion Hd).
      rewrite <- app_assoc. cbn [str_body]. rewrite str_step_ascii by (zbool; lia).
      rewrite IH; [done| simpl in Hl; lia | by inversion Hb | exact Hu | ].
      rewrite length_app in Hf. unfold enc_ascii in Hf.
      repeat case_match; simpl in Hf; lia.
    + apply Z.ltb_ge in Hasc.
      destruct ((c =? 8232) || (c =? 8233)) eqn:Hls.
      * rewrite <- app_assoc. cbn [str_body].
        rewrite str_step_u_escape
          by (apply orb_true_iff in Hls as [Hc|Hc]; apply Z.eqb_eq in Hc; subst;
              first [lia | reflexivity]).
        rewrite IH; [|done|done|done|].
        -- rewrite Henc, take_drop. done.
        -- rewrite length_app in Hf. simpl in Hf. lia.
      * rewrite <- app_assoc. cbn [str_body].
        rewrite (str_step_multi b r c size) by first [lia | done].
        rewrite IH; [|done|done|done|].
        -- rewrite take_drop. done.
        -- rewrite length_app, length_take in Hf. lia.
Qed.


Lemma to_uint_norm n : Decimal.unorm (N.to_uint n) = N.to_uint n.
Proof.
  rewrite <- (DecimalN.Unsigned.to_of (N.to_uint n)), DecimalN.Unsigned.of_to. reflexivity.
Qed.

Lemma to_uint_shape n :
  N.to_uint n <> Decimal.Nil /\ forall u, N.to_uint n = Decimal.D0 u -> u = Decimal.Nil.
Proof.
  pose proof (to_uint_norm n) as Hn. split.
  - intros He. rewrite He in Hn. discriminate.
  - intros u Hu. rewrite Hu in Hn. unfold Decimal.unorm in Hn.
    destruct (Decimal.nzhead (Decimal.D0 u)) as [| d | | | | | | | | |] eqn:Hz; try discriminate.
    + by inversion Hn.
    + exfalso. by apply (nzhead_nonzero (Decimal.D0 u) d).
Qed.

Lemma uint_of_bytes_uint_bytes d : uint_of_bytes (uint_bytes d) = Some d.
Proof. induction d; simpl; rewrite ?IHd; reflexivity. Qed.

Lemma span_uint_bytes d b t :
  is_digit b = false -> span_digits (uint_bytes d ++ b :: t) = (uint_bytes d, b :: t).
Proof.
  intros Hb. induction d; simpl; rewrite ?IHd, ?Hb; reflexivity.
Qed.

Lemma parse_int_digits (neg : bool) u : u <> Decimal.Nil ->
  parse_int ((if neg then [45] else []) ++ uint_bytes u) =
  (let n := Z.of_N (N.of_uint u) in
   let z := if neg then - n else n in
   if (int64_min <=? z) && (z <=? int64_max) then Some z else None).
Proof.
  intros Hu. destruct u; [done| ..]; destruct neg; unfold parse_int; cbn;
    rewrite uint_of_bytes_uint_bytes; reflexivity.
Qed.

Lemma parse_int_encode z : int64_min <= z <= int64_max -> parse_int (encode_int z) = Some z.
Proof.
  intros Hz. unfold encode_int.
  destruct (to_uint_shape (Z.to_N (Z.abs z))) as [Hnil _].
  rewrite parse_int_digits by done. cbv zeta.
  rewrite DecimalN.Unsigned.of_to, Z2N.id by lia.
  destruct (z <? 0) eqn:Hneg; zbool.
  - rewrite Z.abs_neq by lia. rewrite Z.opp_involutive.
    replace ((int64_min <=? z) && (z <=? int64_max)) with true; [done|].
    symmetry. apply andb_true_iff. split; apply Z.leb_le; lia.
  - rewrite Z.abs_eq by lia.
    replace ((int64_min <=? z) && (z <=? int64_max)) with true; [done|].
    symmetry. apply andb_true_iff. split; apply Z.leb_le; lia.
Qed.

Lemma digits1_cons c u b t : is_digit c = true -> is_digit b = false ->
  digits1 (c :: uint_bytes u ++ b :: t) = Some (c :: uint_bytes u, b :: t).
Proof. intros Hc Hb. unfold digits1. cbn [span_digits]. rewrite Hc, span_uint_bytes by done. reflexivity. Qed.

Lemma parse_value_int f z b t : b = 44 \/ b = 125 ->
  parse_value (S f) (encode_int z ++ b :: t) = Some (JNumber (encode_int z), b :: t).
Proof.
  intros Hb. unfold encode_int.
  destruct (to_uint_shape (Z.to_N (Z.abs z))) as [Hnil H0].
  destruct (N.to_uint (Z.to_N (Z.abs z))) as [|u|u|u|u|u|u|u|u|u|u] eqn:Hu; [done|..];
    [specialize (H0 u eq_refl); subst u|..];
    destruct (z <? 0); destruct Hb as [->| ->]; cbn;
    rewrite ?digits1_cons by reflexivity; cbn; rewrite ?List.app_nil_r; reflexivity.
Qed.


Lemma skip_ws_ne b t : is_ws b = false -> skip_ws (b :: t) = b :: t.
Proof. intros H. simpl. rewrite H. reflexivity. Qed.

Lemma parse_value_str f r :
  parse_value (S f) (34 :: r) =
  match str_body (S (length r)) r with Some (d, r') => Some (JString d, r') | None => None end.
Proof. reflexivity. Qed.

Lemma parse_value_members f r r0 : r = 34 :: r0 ->
  parse_value (S f) (123 :: r) = parse_members (parse_value f) (length r) r [].
Proof. intros ->. reflexivity. Qed.

Lemma parse_value_elems f r r0 : r = 123 :: r0 ->
  parse_value (S f) (91 :: r) = parse_elems (parse_value f) (length r) r [].
Proof. intros ->. reflexivity. Qed.

Lemma parse_value_string f s rest :
  Forall byte_ok s -> utf8_ok (length s) s = true ->
  parse_value (S f) (34 :: enc_str (length s) s ++ 34 :: rest) = Some (JString s, rest).
Proof.
  intros Hb Hu. rewrite parse_value_str, enc_str_body; [done|lia|done|done|].
  rewrite length_app. simpl. lia.
Qed.

Lemma parse_member pv g k s3 v s acc :
  (0 < g)%nat -> Forall byte_ok k -> utf8_ok (length k) k = true ->
  pv s3 = Some (v, s) ->
  parse_members pv g (34 :: enc_str (length k) k ++ 34 :: 58 :: s3) acc =
  match skip_ws s with
  | 44 :: s5 => parse_members pv (Nat.pred g) s5 (acc ++ [(k, v)])
  | 125 :: s5 => Some (JObject (acc ++ [(k, v)]), s5)
  | _ => None
  end.
Proof.
  intros Hg Hb Hu Hv. destruct g as [|g]; [lia|]. cbn [parse_members].
  rewrite skip_ws_ne by reflexivity. cbv beta iota.
  rewrite enc_str_body; [|lia|done|done|rewrite length_app; simpl; lia].
  rewrite skip_ws_ne by reflexivity. cbv beta iota. rewrite Hv. reflexivity.
Qed.

Lemma parse_elem pv g s1 v s acc :
  (0 < g)%nat -> pv s1 = Some (v, s) ->
  parse_elems pv g s1 acc =
  match skip_ws s with
  | 44 :: s2 => parse_elems pv (Nat.pred g) s2 (acc ++ [v])
  | 93 :: s2 => Some (JArray (acc ++ [v]), s2)
  | _ => None
  end.
Proof. intros Hg Hv. destruct g as [|g]; [lia|]. cbn [parse_elems]. rewrite Hv. reflexivity. Qed.


Lemma parse_value_stats f t rest :
  Forall byte_ok (ts_name t) -> valid_utf8 (ts_name t) = true ->
  parse_value (S (S f)) (encode_stats t ++ rest) = Some (stats_json t, rest).
Proof.
  intros Hb Hu. unfold valid_utf8 in Hu.
  unfold encode_stats, json_key, encode_string. rewrite <- !app_assoc. cbn [app].
  erewrite parse_value_members by reflexivity.
  erewrite parse_member; [| cbn [length]; lia | apply (bool_decide_unpack _); vm_compute; reflexivity
                          | reflexivity | apply parse_value_string; done].
  rewrite skip_ws_ne by reflexivity. cbv beta iota.
  erewrite parse_member; [| cbn [length]; rewrite !length_app; cbn [length]; lia
                          | apply (bool_decide_unpack _); vm_compute; reflexivity
                          | reflexivity | apply parse_value_int; auto].
  rewrite skip_ws_ne by reflexivity. cbv beta iota.
  erewrite parse_member; [| cbn [length]; rewrite !length_app; cbn [length]; lia
                          | apply (bool_decide_unpack _); vm_compute; reflexivity
                          | reflexivity | apply parse_value_int; auto].
  rewrite skip_ws_ne by reflexivity. cbv beta iota.
  erewrite parse_member; [| cbn [length]; rewrite !length_app; cbn [length]; lia
                          | apply (bool_decide_unpack _); vm_compute; reflexivity
                          | reflexivity | apply parse_value_int; auto].
  rewrite skip_ws_ne by reflexivity. cbv beta iota. reflexivity.
Qed.


Lemma join_cons2 x y l :
  join_elems (map encode_stats (x :: y :: l)) = encode_stats x ++ 44 :: join_elems (map encode_stats (y :: l)).
Proof. reflexivity. Qed.

Lemma encode_stats_head t : exists r, encode_stats t = 123 :: r.
Proof. eexists. reflexivity. Qed.

Lemma join_head x l rest : exists r, join_elems (map encode_stats (x :: l)) ++ rest = 123 :: r.
Proof. destruct l; eexists; reflexivity. Qed.

Lemma join_length l : (length l <= length (join_elems (map encode_stats l)))%nat.
Proof.
  induction l as [|x l IH]; [simpl; lia|]. destruct l as [|y l].
  - destruct (encode_stats_head x) as [r Hr]. cbn [map join_elems]. rewrite Hr. simpl. lia.
  - rewrite join_cons2, length_app. destruct (encode_stats_head x) as [r Hr]. rewrite Hr.
    cbn [length] in *. lia.
Qed.

Lemma parse_elems_stats f g l acc rest :
  l <> [] -> Forall stats_ok l -> (length l <= g)%nat ->
  parse_elems (parse_value (S (S f))) g (join_elems (map encode_stats l) ++ 93 :: rest) acc =
  Some (JArray (acc ++ map stats_json l), rest).
Proof.
  revert g acc. induction l as [|x l IH]; intros g acc Hne Hok Hg; [done|].
  inversion Hok as [|? ? [Hb [Hu _]] Hok']; subst.
  destruct l as [|y l].
  - cbn [map join_elems].
    erewrite parse_elem; [| simpl in Hg; lia | apply parse_value_stats; done].
    rewrite skip_ws_ne by reflexivity. cbv beta iota. reflexivity.
  - rewrite join_cons2, <- app_assoc. cbn [app].
    erewrite parse_elem; [| simpl in Hg; lia | apply parse_value_stats; done].
    rewrite skip_ws_ne by reflexivity. cbv beta iota.
    rewrite IH; [|done|done|simpl in *; lia].
    rewrite <- app_assoc. reflexivity.
Qed.

Lemma parse_json_marshal l : Forall stats_ok l ->
  parse_json (marshal l) = Some (JArray (map stats_json l)).
Proof.
  intros Hok. destruct l as [|x l]; [reflexivity|].
  unfold parse_json, marshal. cbn [app length].
  destruct (join_head x l [93]) as [r0 Hr0].
  erewrite parse_value_elems by exact Hr0.
  pose proof (join_length (x :: l)) as Hlen.
  remember (join_elems (map encode_stats (x :: l))) as J eqn:HJ.
  assert (HX : (2 <= length (J ++ [93%Z]))%nat) by (rewrite length_app; simpl in *; lia).
  destruct (length (J ++ [93%Z])) as [|[|f]] eqn:E; [lia|lia|].
  subst J. rewrite parse_elems_stats; [reflexivity|done|done|].
  rewrite length_app in E. simpl in *. lia.
Qed.

Lemma to_stats_json t : stats_ok t -> to_stats (stats_json t) = Some (Some t).
Proof.
  intros [_ [_ [Hc [Hr Ht]]]]. destruct t as [n c r x]. simpl in *.
  unfold to_stats, stats_json. cbn [fold_left fst snd].
  unfold set_field, set_int.
  repeat match goal with
         | |- context [key_is ?k ?f] =>
             let E := fresh "E" in
             destruct (key_is k f) eqn:E; vm_compute in E; try discriminate E; clear E
         end.
  rewrite !parse_int_encode by lia. reflexivity.
Qed.

Lemma to_stats_list_json l : Forall stats_ok l -> to_stats_list (map stats_json l) = Some (map Some l).
Proof.
  induction 1 as [|t l Ht _ IH]; [reflexivity|].
  cbn [map to_stats_list]. rewrite to_stats_json, IH by done. reflexivity.
Qed.

Lemma index_byte_app m t : Forall (fun b => b <> 0) m -> index_byte (m ++ 0 :: t) 0 = Some (length m).
Proof.
  induction 1 as [|b m Hb _ IH]; [reflexivity|].
  cbn [app index_byte length]. rewrite IH. apply Z.eqb_neq in Hb. rewrite Hb. reflexivity.
Qed.

Lemma until_zero_pad m : Forall (fun b => b <> 0) m -> until_zero (pad_frame m) = m.
Proof.
  intros Hm. unfold until_zero, pad_frame.
  assert (Hx : (1 <= Z.to_nat (256 - Z.of_nat (length m) mod 256))%nat).
  { pose proof (Z.mod_pos_bound (Z.of_nat (length m)) 256). lia. }
  destruct (Z.to_nat _) as [|k]; [lia|]. cbn [repeat].
  rewrite index_byte_app by done. apply take_app_length.
Qed.

(** C2. For every list of records whose names are valid UTF-8 and whose
    counters are int64 values, and whose serialization holds no zero byte,
    the subscriber's parse of the padded frame (up to its first zero byte)
    gives back exactly the published records, in order. *)
Theorem publish_roundtrip l :
  Forall stats_ok l -> Forall (fun b => b <> 0) (marshal l) ->
  parse_frame (publish l) = Some (map Some l).
Proof.
  intros Hok Hz. unfold parse_frame, publish. rewrite until_zero_pad by done.
  unfold unmarshal. rewrite parse_json_marshal by done. apply to_stats_list_json, Hok.
Qed.

(** A name holding a zero byte, U+2028 and '<', with a negative counter
    and the largest int64, satisfies the hypotheses and round-trips. *)
Lemma publish_roundtrip_witness : (Forall stats_ok [mkStats [0;226;128;168;60] 12 (-5) int64_max] /\ Forall (fun b => b <> 0) (marshal [mkStats [0;226;128;168;60] 12 (-5) int64_max])) /\ parse_frame (publish [mkStats [0;226;128;168;60] 12 (-5) int64_max]) = Some (map Some [mkStats [0;226;128;168;60] 12 (-5) int64_max]).
Proof.
  assert (H : Forall stats_ok [mkStats [0;226;128;168;60] 12 (-5) int64_max] /\ Forall (fun b => b <> 0) (marshal [mkStats [0;226;128;168;60] 12 (-5) int64_max])).
  { split.
    { constructor; [|constructor]. unfold stats_ok; cbn.
      split; [apply (bool_decide_unpack _); vm_compute; reflexivity|].
      split; [vm_compute; reflexivity|]. unfold int64_min, int64_max. lia. }
    apply (bool_decide_unpack _). vm_compute. reflexivity. }
  split; [exact H|]. apply publish_roundtrip; apply H.
Defined.

(** A record whose name is the single byte 255 (not valid UTF-8) comes
    back with the name U+FFFD, bytes EF BF BD: json.Marshal replaces the
    invalid byte by the escape of the replacement character. *)
Lemma publish_invalid_name_replaced : parse_frame (publish [mkStats [255] 0 0 0]) = Some [Some (mkStats [239;191;189] 0 0 0)].
Proof. vm_compute. reflexivity. Qed.

End JsonFacts.

(* ------------------------------------------------------------------ *)
(** ** Further properties of the embedded code *)
(* ------------------------------------------------------------------ *)

Module AddrProps.
Import GoStr Addr Samples.

Lemma digits_acc_pos u p :
  digits_acc (N.pos p) (uint_to_string u) = Some (N.pos (Pos.of_uint_acc u p)).
Proof.
  revert p. induction u; intros p; simpl; [reflexivity|..]; rewrite <- IHu; f_equal; lia.
Qed.

Lemma digits_acc_uint u : digits_acc 0 (uint_to_string u) = Some (N.of_uint u).
Proof.
  induction u; simpl; try exact IHu; [reflexivity|..];
    rewrite <- digits_acc_pos; reflexivity.
Qed.

Lemma atoi_uint (neg : bool) u : u <> Decimal.Nil ->
  atoi (if neg then String "-" (uint_to_string u) else uint_to_string u) =
  (let z := if neg then - Z.of_N (N.of_uint u) else Z.of_N (N.of_uint u) in
   if (int64_min <=? z) && (z <=? int64_max) then Some z else None).
Proof.
  intros Hu. pose proof (digits_acc_uint u) as H.
  destruct u; [done|..]; destruct neg; cbn in H |- *; rewrite H; reflexivity.
Qed.

Lemma atoi_itoa z : int64_min <= z <= int64_max -> atoi (itoa z) = Some z.
Proof.
  intros Hz. unfold itoa.
  destruct (z <? 0) eqn:Hneg.
  - destruct (JsonFacts.to_uint_shape (Z.to_N (- z))) as [Hnil _].
    rewrite (atoi_uint true) by done. cbv zeta.
    rewrite DecimalN.Unsigned.of_to, Z2N.id by lia. rewrite Z.opp_involutive.
    apply Z.ltb_lt in Hneg.
    replace ((int64_min <=? z) && (z <=? int64_max)) with true; [done|].
    symmetry. apply andb_true_iff. split; apply Z.leb_le; lia.
  - destruct (JsonFacts.to_uint_shape (Z.to_N z)) as [Hnil _].
    rewrite (atoi_uint false) by done. cbv zeta.
    rewrite DecimalN.Unsigned.of_to, Z2N.id by lia.
    replace ((int64_min <=? z) && (z <=? int64_max)) with true; [done|].
    symmetry. apply andb_true_iff. split; apply Z.leb_le; lia.
Qed.

Lemma split_go_app sep s1 s2 : no_char sep s1 ->
  split_go sep (s1 +:+ String sep s2) = s1 :: split_go sep s2.
Proof.
  unfold no_char. induction s1 as [|c s1 IH]; intros H; simpl.
  - rewrite Ascii.eqb_refl. reflexivity.
  - inversion H as [|? ? Hc Hs]; subst. rewrite IH by done.
    destruct (Ascii.eqb_spec c sep); [congruence|]. reflexivity.
Qed.

Lemma split_go_none sep s : no_char sep s -> split_go sep s = [s].
Proof.
  unfold no_char. induction s as [|c s IH]; intros H; simpl; [reflexivity|].
  inversion H as [|? ? Hc Hs]; subst. rewrite IH by done.
  destruct (Ascii.eqb_spec c sep); [congruence|]. reflexivity.
Qed.

Lemma no_char_app c s1 s2 : no_char c s1 -> no_char c s2 -> no_char c (s1 +:+ s2).
Proof.
  unfold no_char. induction s1; simpl; intros H1 H2; [done|].
  inversion H1; subst. constructor; auto.
Qed.

Lemma no_char_uint c u :
  c <> "0"%char -> c <> "1"%char -> c <> "2"%char -> c <> "3"%char -> c <> "4"%char ->
  c <> "5"%char -> c <> "6"%char -> c <> "7"%char -> c <> "8"%char -> c <> "9"%char ->
  no_char c (uint_to_string u).
Proof.
  intros ? ? ? ? ? ? ? ? ? ?. unfold no_char.
  induction u; simpl; constructor; auto.
Qed.

Lemma no_char_itoa c z :
  c <> "-"%char -> c <> "0"%char -> c <> "1"%char -> c <> "2"%char -> c <> "3"%char -> c <> "4"%char ->
  c <> "5"%char -> c <> "6"%char -> c <> "7"%char -> c <> "8"%char -> c <> "9"%char ->
  no_char c (itoa z).
Proof.
  intros. unfold itoa. destruct (z <? 0).
  - unfold no_char. simpl. constructor; [auto|]. apply no_char_uint; auto.
  - apply no_char_uint; auto.
Qed.

Ltac chars := intros ?; discriminate.

Lemma no_colon_itoa z : no_char ":" (itoa z).
Proof. apply no_char_itoa; chars. Qed.

Lemma no_dot_itoa z : no_char "." (itoa z).
Proof. apply no_char_itoa; chars. Qed.

Lemma no_colon_ipv4 a b c d : no_char ":" (ipv4_string a b c d).
Proof.
  unfold ipv4_string.
  repeat (apply no_char_app; [apply no_colon_itoa || (unfold no_char; repeat constructor; chars)|]).
  apply no_colon_itoa.
Qed.

Lemma string_cons_app c x : String c EmptyString +:+ x = String c x.
Proof. reflexivity. Qed.

Lemma parse_octet_itoa w : 0 <= w <= 255 -> parse_octet (itoa w) = Some w.
Proof.
  intros Hw.
  assert (Hall : forallb (fun n => bool_decide (parse_octet (itoa (Z.of_nat n)) = Some (Z.of_nat n)))
                   (seq 0 256) = true) by (vm_compute; reflexivity).
  rewrite forallb_forall in Hall.
  specialize (Hall (Z.to_nat w)). rewrite Z2Nat.id in Hall by lia.
  apply bool_decide_eq_true in Hall; [done|]. apply in_seq. lia.
Qed.

Lemma parse_ipv4_string a b c d :
  ip_ok (IPv4 a b c d) -> parse_ipv4 (ipv4_string a b c d) = Some (IPv4 a b c d).
Proof.
  intros (Ha & Hb & Hc & Hd). unfold parse_ipv4, ipv4_string.
  rewrite !(string_cons_app "."%char).
  rewrite (split_go_app _ (itoa a)), (split_go_app _ (itoa b)), (split_go_app _ (itoa c)),
    (split_go_none _ (itoa d)) by apply no_dot_itoa.
  rewrite !parse_octet_itoa by done. reflexivity.
Qed.

Lemma parse_octet_range s n : parse_octet s = Some n -> 0 <= n <= 255.
Proof.
  unfold parse_octet. intros H. repeat case_match; simplify_eq;
    match goal with Hl : (_ <=? 255)%N = true |- _ => apply N.leb_le in Hl end; lia.
Qed.

Lemma parse_ipv4_ok s i : parse_ipv4 s = Some i -> ip_ok i.
Proof.
  unfold parse_ipv4. intros H. repeat case_match; simplify_eq.
  repeat match goal with Hp : parse_octet _ = Some _ |- _ => apply parse_octet_range in Hp end.
  simpl. lia.
Qed.

Lemma lookup_ip_ok dns h l : (forall h l, dns h = Some l -> Forall ip_ok l) ->
  lookup_ip dns h = Some l -> Forall ip_ok l.
Proof.
  intros Hdns. unfold lookup_ip. destruct (parse_ipv4 h) as [i|] eqn:Hp.
  - intros [= <-]. constructor; [|constructor]. eapply parse_ipv4_ok; eauto.
  - apply Hdns.
Qed.

(** X1. With a resolver whose answers are IPv4 addresses, an address that
    ValidateAddress(remote = false) accepts is accepted unchanged when it
    is validated again, with any resolver: the rewritten "a.b.c.d:port"
    is a fixed point. *)
Theorem validate_address_idempotent dns dns' a a' :
  (forall h l, dns h = Some l -> Forall ip_ok l) ->
  validate_address dns false a = (a', true) ->
  validate_address dns' false a' = (a', true).
Proof.
  intros Hdns H. unfold validate_address in H.
  destruct (split_go ":" (address a)) as [|host [|ps [|? ?]]] eqn:Hs; try discriminate.
  destruct (lookup_ip dns host) as [[|i ips]|] eqn:Hl; cbv beta iota in H;
    [destruct (atoi ps); [destruct (_ || _)|]; discriminate..| |
     destruct (atoi ps); [destruct (_ || _)|]; discriminate].
  apply (lookup_ip_ok dns) in Hl; [|done]. inversion Hl as [|? ? Hi _]; subst.
  destruct i as [w x y z|]; [|contradiction].
  destruct (atoi ps) as [p|]; [|discriminate].
  destruct ((p <? 1) || (65536 <? p)) eqn:Hr; [discriminate|]. injection H as <-.
  apply orb_false_iff in Hr as [Hr1 Hr2]. apply Z.ltb_ge in Hr1, Hr2.
  unfold validate_address. cbn [address].
  rewrite string_cons_app, split_go_app, split_go_none by (apply no_colon_ipv4 || apply no_colon_itoa).
  unfold lookup_ip. rewrite parse_ipv4_string by done. cbv beta iota.
  rewrite atoi_itoa by (unfold int64_min, int64_max; lia).
  replace ((p <? 1) || (65536 <? p)) with false; [reflexivity|].
  symmetry. apply orb_false_iff. split; apply Z.ltb_ge; lia.
Qed.

(** X2. ValidateAddress returns the valid flag it stores; when it returns
    true the port is in [1, 65536] and the address ends in ":" followed by
    the decimal port. *)
Theorem validate_address_result dns remote a :
  let '(a', ok) := validate_address dns remote a in
  valid a' = ok /\
  (ok = true -> 1 <= port a' <= 65536 /\ exists host, address a' = host +:+ ":" +:+ itoa (port a')).
Proof.
  unfold validate_address.
  destruct (split_go ":" (address a)) as [|host [|ps [|? ?]]]; try (split; [reflexivity|discriminate]).
  destruct (lookup_ip dns host) as [[|[w x y z|] ips]|]; [|destruct remote| |];
    cbv beta iota;
    (destruct (atoi ps) as [p|]; [|split; [reflexivity|discriminate]]);
    (destruct ((p <? 1) || (65536 <? p)) eqn:Hr; [split; [reflexivity|discriminate]|]);
    apply orb_false_iff in Hr as [Hr1 Hr2]; apply Z.ltb_ge in Hr1, Hr2;
    (split; [reflexivity|]); intros _; cbn [port address]; (split; [lia|]); eauto.
Qed.

(** X3. When the address is "host:port" with a single ':', the port
    parses as an integer in [1, 65536] and the host part does not resolve,
    the address is not replaced, yet the port is appended to it: the stored address is
    "host:port:port". It is valid exactly when [remote] is set. *)
Theorem validate_address_unresolved dns remote a h ps p :
  address a = h +:+ ":" +:+ ps -> no_char ":" h -> no_char ":" ps ->
  lookup_ip dns h = None -> atoi ps = Some p -> 1 <= p <= 65536 ->
  validate_address dns remote a = (mkAddress remote (address a +:+ ":" +:+ itoa p) p, remote).
Proof.
  intros Ha Hh Hps Hl Hp Hr. unfold validate_address.
  rewrite Ha at 1. rewrite string_cons_app, split_go_app, split_go_none by done.
  rewrite Hl. cbv beta iota. rewrite Hp.
  replace ((p <? 1) || (65536 <? p)) with false; [reflexivity|].
  symmetry. apply orb_false_iff. split; apply Z.ltb_ge; lia.
Qed.

Lemma split_go_length sep s :
  length (split_go sep s) = S (length (List.filter (fun ch => Ascii.eqb ch sep) (list_ascii_of_string s))).
Proof.
  induction s as [|c s IH]; [reflexivity|]. simpl.
  destruct (Ascii.eqb c sep); simpl; [rewrite IH; reflexivity|].
  destruct (split_go sep s); simpl in *; lia.
Qed.

(** X4. An address without exactly one ':' is invalid and left as it is. *)
Theorem validate_address_colons dns remote a :
  length (List.filter (fun ch => Ascii.eqb ch ":") (list_ascii_of_string (address a))) <> 1%nat ->
  validate_address dns remote a = (mkAddress false (address a) (port a), false).
Proof.
  intros Hc. unfold validate_address. pose proof (split_go_length ":" (address a)) as Hl.
  destruct (split_go ":" (address a)) as [|host [|ps [|? ?]]]; simpl in Hl; try reflexivity; lia.
Qed.

(** The name "db" resolves to 10.0.0.5; "db:5432" becomes "10.0.0.5:5432". *)
Lemma validate_address_idempotent_witness :
  let dns := fun h => if String.eqb h "db" then Some [IPv4 10 0 0 5] else None in
  validate_address no_dns false (validate_address dns false (new_address "db:5432")).1
    = ((validate_address dns false (new_address "db:5432")).1, true).
Proof.
  intros dns. apply (validate_address_idempotent dns no_dns (new_address "db:5432")).
  - intros h l Hd. unfold dns in Hd. destruct (String.eqb h "db"); [|discriminate Hd].
    injection Hd as <-. repeat constructor; simpl; lia.
  - vm_compute. reflexivity.
Defined.

(** "db.internal:22" with a resolver that does not know the name. *)
Lemma validate_address_unresolved_witness :
  validate_address no_dns true (new_address "db.internal:22")
    = (mkAddress true (address (new_address "db.internal:22") +:+ ":" +:+ itoa 22) 22, true).
Proof.
  apply (validate_address_unresolved no_dns true (new_address "db.internal:22") "db.internal" "22" 22).
  - reflexivity.
  - unfold no_char. simpl. repeat constructor; discriminate.
  - unfold no_char. simpl. repeat constructor; discriminate.
  - vm_compute. reflexivity.
  - reflexivity.
  - lia.
Defined.

(** "a:b:c" has two colons. *)
Lemma validate_address_colons_witness :
  validate_address no_dns false (new_address "a:b:c")
    = (mkAddress false (address (new_address "a:b:c")) (port (new_address "a:b:c")), false).
Proof.
  apply (validate_address_colons no_dns false (new_address "a:b:c")).
  intros H. vm_compute in H. discriminate H.
Defined.

End AddrProps.

Module ConfigProps.
Import GoStr Addr Config ConfigFacts Samples.

Ltac hstep E :=
  revert E; repeat case_match; intros E; simplify_eq/=;
  try match goal with H : validate_ptr _ _ _ _ _ _ _ _ = _ |- _ =>
        apply validate_ptr_state in H as [? ->] end;
  simpl; auto.

(** Name the state after the next step of Host.Validate that may panic;
    the panic branch ([None]) contradicts a returned result. *)
Ltac next_some v s E :=
  match goal with
  | |- context [match ?e with Some _ => _ | None => _ end] =>
      lazymatch type of e with
      | option (_ * State)%type => destruct e as [[v s]|] eqn:E; [|intros ?; discriminate]
      end
  end.

(** X5. When Host.Validate returns (it does not panic on a failed
    os.Stat), it has registered the host under its trimmed name, with its
    address object, jump host and flags, and left the other hosts alone.
    It returns false when the name is blank or already taken, the
    identity is blank, the address is nil, or the host names itself as
    its jump host. *)
Theorem host_validate_registers E du h st v st' :
  host_validate E du h st = Some (v, st') ->
  (exists h', hosts st' !! trim_space (h_name h) = Some h' /\ h_name h' = trim_space (h_name h) /\
     h_address h' = h_address h /\ h_jump_host h' = h_jump_host h /\
     h_is_host h' = h_is_host h /\ h_is_jump_host h' = h_is_jump_host h) /\
  (forall k, k <> trim_space (h_name h) -> hosts st' !! k = hosts st !! k) /\
  (trim_space (h_name h) = ""%string \/ is_Some (hosts st !! trim_space (h_name h)) \/
   trim_space (h_identity h) = ""%string \/ h_address h = None \/
   h_jump_host h = trim_space (h_name h) -> v = false).
Proof.
  unfold host_validate. cbv zeta. set (n := trim_space (h_name h)).
  set (idn := trim_space (h_identity h)).
  next_state v1 s1 E1.
  assert (hosts s1 = hosts st /\ (n = ""%string -> v1 = false)) as [Hh1 C1].
  { revert E1. case_match; intros; simplify_eq/=; repeat split; auto.
    intros Hn. apply String.eqb_neq in H. done. }
  clear E1.
  next_state v2 s2 E2.
  assert (hosts s2 = hosts st /\ (v1 = false -> v2 = false) /\
          (is_Some (hosts st !! n) -> v2 = false)) as (Hh2 & M2 & C2).
  { rewrite <- Hh1. revert E2. case_match; intros; simplify_eq/=; repeat split; auto.
    intros [? ?]. congruence. }
  clear E2.
  next_state u3 s3 E3.
  assert (hosts s3 = hosts st) as Hh3 by (rewrite <- Hh2; hstep E3).
  clear E3.
  next_some v4 s4 E4.
  assert (hosts s4 = hosts st /\ (v2 = false -> v4 = false)) as [Hh4 M4]
    by (rewrite <- Hh3; hstep E4).
  clear E4.
  next_state v5 s5 E5.
  assert (hosts s5 = hosts st /\ (v4 = false -> v5 = false) /\ (idn = ""%string -> v5 = false))
    as (Hh5 & M5 & C5).
  { rewrite <- Hh4. revert E5. case_match; intros; simplify_eq/=; repeat split; auto.
    intros Hi. apply String.eqb_neq in H. done. }
  clear E5.
  next_some p6 s6 E6. destruct p6 as [v6 pass].
  assert (hosts s6 = hosts st /\ (v5 = false -> v6 = false)) as [Hh6 M6]
    by (rewrite <- Hh5; hstep E6).
  clear E6.
  next_state v7 s7 E7.
  assert (hosts s7 = hosts st /\ (v6 = false -> v7 = false) /\ (h_address h = None -> v7 = false))
    as (Hh7 & M7 & C7).
  { rewrite <- Hh6. revert E7. unfold blank_ptr. repeat case_match; intros; simplify_eq/=;
      try match goal with Hx : validate_ptr _ _ _ _ _ _ _ _ = _ |- _ =>
            apply validate_ptr_state in Hx as [? ->] end;
      repeat split; auto; intros; subst; try congruence; auto. }
  clear E7.
  next_state p8 s8 E8. destruct p8 as [v8 known].
  assert (hosts s8 = hosts st /\ (v7 = false -> v8 = false) /\
          (h_jump_host h = n -> v8 = false)) as (Hh8 & M8 & C8).
  { rewrite <- Hh7. revert E8. repeat case_match; intros; simplify_eq/=; repeat split; auto.
    all: intros Hj; match goal with
    | Hx : (_ =? "")%string = true |- _ =>
        apply String.eqb_eq in Hx; apply M7, M6, M5, M4, M2, C1; congruence
    | Hx : (_ =? _)%string = false |- _ => apply String.eqb_neq in Hx; done
    end. }
  clear E8.
  intros [= <- <-]. cbn [hosts set_hosts].
  assert (Hh9 : hosts (if env_verbose E && v8 then emit s8 (MsgHostValidated n) else s8) = hosts st)
    by (destruct (_ && _); simpl; done).
  split; [eexists; split; [simplify_map_eq; reflexivity|]; simpl; done|].
  split; [intros k Hk; rewrite lookup_insert_ne by congruence; rewrite Hh9; done|].
  intros [Hc|[Hc|[Hc|[Hc|Hc]]]]; auto 10.
Qed.

(** X6. Tunnel.Validate always registers the tunnel under its trimmed
    name, with its trimmed host name and its forward object, and leaves
    the other tunnels alone. It returns false when the name is blank or
    already taken, the forward address is nil, or the host name is blank
    or names no registered host. *)
Theorem tunnel_validate_registers E t st v st' :
  tunnel_validate E t st = (v, st') ->
  (exists l, tunnels st' !! trim_space (t_name t) =
     Some (mkTunnel (trim_space (t_name t)) l (trim_space (t_host t)) (t_forward t))) /\
  (forall k, k <> trim_space (t_name t) -> tunnels st' !! k = tunnels st !! k) /\
  (trim_space (t_name t) = ""%string \/ is_Some (tunnels st !! trim_space (t_name t)) \/
   t_forward t = None \/ trim_space (t_host t) = ""%string \/
   hosts st !! trim_space (t_host t) = None -> v = false).
Proof.
  unfold tunnel_validate. cbv zeta. set (n := trim_space (t_name t)).
  set (hn := trim_space (t_host t)).
  next_state v1 s1 E1.
  assert (tunnels s1 = tunnels st /\ hosts s1 = hosts st /\ (n = ""%string -> v1 = false))
    as (Ht1 & Hh1 & C1).
  { revert E1. case_match; intros; simplify_eq/=; repeat split; auto.
    intros Hn. apply String.eqb_neq in H. done. }
  clear E1.
  next_state v2 s2 E2.
  assert (tunnels s2 = tunnels st /\ hosts s2 = hosts st /\ (v1 = false -> v2 = false) /\
          (is_Some (tunnels st !! n) -> v2 = false)) as (Ht2 & Hh2 & M2 & C2).
  { rewrite <- Ht1, <- Hh1. revert E2. case_match; intros; simplify_eq/=; repeat split; auto.
    intros [? ?]. congruence. }
  clear E2.
  next_state v3 s3 E3.
  assert (tunnels s3 = tunnels st /\ hosts s3 = hosts st /\ (v2 = false -> v3 = false) /\
          (t_forward t = None -> v3 = false)) as (Ht3 & Hh3 & M3 & C3).
  { rewrite <- Ht2, <- Hh2. revert E3. unfold blank_ptr. repeat case_match; intros; simplify_eq/=;
      try match goal with Hx : validate_ptr _ _ _ _ _ _ _ _ = _ |- _ =>
            apply validate_ptr_state in Hx as [? ->] end;
      repeat split; auto; intros; subst; try congruence; auto. }
  clear E3.
  next_state lc s4 E4.
  assert (tunnels s4 = tunnels st /\ hosts s4 = hosts st) as (Ht4 & Hh4).
  { rewrite <- Ht3, <- Hh3. revert E4. repeat case_match; intros; simplify_eq/=;
      try match goal with Hx : alloc_address _ _ = _ |- _ =>
            apply alloc_address_state in Hx as [-> ->] end; simpl; auto. }
  clear E4.
  next_state v5 s5 E5.
  assert (tunnels s5 = tunnels st /\ hosts s5 = hosts st /\ (v3 = false -> v5 = false))
    as (Ht5 & Hh5 & M5).
  { rewrite <- Ht4, <- Hh4. revert E5. repeat case_match; intros; simplify_eq/=;
      try match goal with Hx : validate_ptr _ _ _ _ _ _ _ _ = _ |- _ =>
            apply validate_ptr_state in Hx as [? ->] end;
      repeat split; auto; intros; subst; auto. }
  clear E5.
  next_state v6 s6 E6.
  assert (tunnels s6 = tunnels st /\ (v5 = false -> v6 = false) /\
          (hn = ""%string \/ hosts st !! hn = None -> v6 = false)) as (Ht6 & M6 & C6).
  { rewrite <- Ht5, <- Hh5. revert E6. repeat case_match; intros; simplify_eq/=; repeat split; auto;
      intros [Hx|Hx]; try congruence.
    apply String.eqb_neq in H. done. }
  clear E6.
  intros [= <- <-]. cbn [tunnels set_tunnels].
  assert (Ht7 : tunnels (if env_verbose E && v6 then emit s6 (MsgTunnelValidated n) else s6) = tunnels st)
    by (destruct (_ && _); simpl; done).
  split; [eexists; simplify_map_eq; reflexivity|].
  split; [intros k Hk; rewrite lookup_insert_ne by congruence; rewrite Ht7; done|].
  intros [Hc|[Hc|[Hc|Hc]]]; auto 10.
Qed.

Lemma emit_hosts st m : hosts (emit st m) = hosts st.
Proof. done. Qed.

Lemma prune_lookup st k h :
  hosts (prune_unused st) !! k = Some h <->
  hosts st !! k = Some h /\ (h_is_host h || h_is_jump_host h) = true.
Proof.
  unfold prune_unused. cbn [hosts set_hosts].
  rewrite map_lookup_filter_Some. cbn. rewrite Is_true_true.
  generalize (filter (fun kv : string * Host => negb (h_is_host kv.2 || h_is_jump_host kv.2))
                (map_to_list (hosts st))) as l.
  intros l. enough (Hf : forall s0, hosts (foldl (fun st0 kv => emit st0 (MsgHostUnused kv.1)) s0 l) = hosts s0)
    by (rewrite Hf; done).
  induction l as [|kv l IH]; intros s0; [done|]. simpl. rewrite IH. done.
Qed.

Lemma host_validate_hosts E du h st v st' :
  host_validate E du h st = Some (v, st') ->
  exists h', hosts st' = <[trim_space (h_name h) := h']> (hosts st) /\
             h_is_jump_host h' = h_is_jump_host h.
Proof.
  unfold host_validate. cbv zeta.
  assert (H : hosts st = hosts st) by done.
  repeat inv_step H (fun s => hosts s = hosts st).
  intros [= <- <-]. cbn [hosts set_hosts]. eexists; split;
    [rewrite <- H; match goal with |- context [if env_verbose E && ?b then _ else _] =>
       by destruct (env_verbose E && b) end|reflexivity].
Qed.

Lemma validate_hosts_flag E du hs valid st v st' :
  Forall (fun h => h_is_jump_host h = false) hs -> no_jump_flag (hosts st) ->
  validate_hosts E du hs valid st = Some (v, st') -> no_jump_flag (hosts st').
Proof.
  intros Hhs. revert valid st. induction Hhs as [|h hs Hh _ IH]; intros valid st Hst.
  - intros [= <- <-]. done.
  - cbn [validate_hosts]. destruct (host_validate E du h st) as [[ok st1]|] eqn:Hv;
      [|discriminate].
    apply IH. destruct (host_validate_hosts _ _ _ _ _ _ Hv) as (h' & -> & Hj).
    apply map_Forall_insert_2; [congruence|done].
Qed.

Lemma tunnel_validate_flag E t st v st' :
  tunnel_validate E t st = (v, st') -> no_jump_flag (hosts st) -> no_jump_flag (hosts st').
Proof.
  intros Ht Hst. rewrite (tunnel_validate_hosts _ _ _ _ _ Ht).
  repeat case_match; try done. apply map_Forall_insert_2; [|done].
  match goal with Hx : hosts st !! _ = Some _ |- _ => apply Hst in Hx end. done.
Qed.

Lemma validate_tunnels_flag E ts valid st :
  no_jump_flag (hosts st) -> no_jump_flag (hosts (validate_tunnels E ts valid st).2).
Proof.
  revert valid st. induction ts as [|t ts IH]; intros valid st Hst; [done|].
  cbn [validate_tunnels]. destruct (tunnel_validate E t st) as [ok st1] eqn:Hv.
  apply IH. by eapply tunnel_validate_flag.
Qed.

Lemma jump_step_flag E k valid st v st' :
  (jump_step E k valid st = inl (v, st') \/ jump_step E k valid st = inr (v, st')) ->
  no_jump_flag (hosts st) -> no_jump_flag (hosts st').
Proof.
  intros Hs Hst.
  destruct Hs as [Hs|Hs]; unfold jump_step in Hs; repeat case_match; simplify_eq; try done;
    repeat match goal with
    | H : free_port _ = _ |- _ => apply free_port_state in H as [->|[? [_ ->]]]
    | H : alloc_address _ _ = _ |- _ => apply alloc_address_state in H as [-> ->]
    end; cbn [hosts set_free_ports set_hosts] in *.
  all: try match goal with H : tunnel_validate _ _ _ = _ |- _ =>
         apply tunnel_validate_flag in H; [|done] end; cbn [hosts] in *.
  all: try done.
  all: intros key hk; rewrite lookup_alter_Some;
       intros [(_ & hx & Hx & ->)|(_ & Hx)];
       match goal with Hf : no_jump_flag (hosts ?s), Hy : hosts ?s !! _ = _ |- _ => apply Hf in Hy end;
       done.
Qed.

Lemma jump_loop_flag E ks valid st :
  no_jump_flag (hosts st) -> no_jump_flag (hosts (jump_loop E ks valid st).2).
Proof.
  revert valid st. induction ks as [|k ks IH]; intros valid st Hst; [done|].
  cbn [jump_loop]. destruct (jump_step E k valid st) as [[v1 st1]|[v1 st1]] eqn:Hs.
  - apply IH. eapply jump_step_flag; [left; exact Hs|done].
  - eapply jump_step_flag; [right; exact Hs|done].
Qed.

(** X8. When no host has isJumpHost set (as loaded: the field is
    unexported and never assigned), every host left after
    Configuration.Validate (when it returns: no panic in Host.Validate)
    has isHost set: a host that
    no tunnel, real or synthetic, goes through is deleted. *)
Theorem config_keeps_targeted E du hs ts order st v st' :
  Forall (fun h => h_is_jump_host h = false) hs -> no_jump_flag (hosts st) ->
  config_validate E du hs ts order st = Some (v, st') ->
  forall k h, hosts st' !! k = Some h -> h_is_host h = true.
Proof.
  intros Hhs Hst. unfold config_validate, validate_entries, validate_jump_hosts.
  destruct (validate_hosts E du hs true st) as [[v1 st1]|] eqn:E1; [|discriminate].
  destruct (validate_tunnels E ts v1 st1) as [v2 st2] eqn:E2.
  destruct (jump_loop E (order st2) true st2) as [v3 st3] eqn:E3.
  intros [= <- <-] k h Hk. apply prune_lookup in Hk as [Hk Hb].
  assert (Hf1 : no_jump_flag (hosts st1))
    by exact (validate_hosts_flag E du hs true st v1 st1 Hhs Hst E1).
  assert (Hf2 : no_jump_flag (hosts st2))
    by (pose proof (validate_tunnels_flag E ts v1 st1 Hf1) as Hx; rewrite E2 in Hx; done).
  assert (Hf3 : no_jump_flag (hosts st3))
    by (pose proof (jump_loop_flag E (order st2) true st2 Hf2) as Hx; rewrite E3 in Hx; done).
  apply Hf3 in Hk. rewrite Hk, orb_false_r in Hb. done.
Qed.

Lemma jump_loop_noop E order valid st :
  (forall k h, hosts st !! k = Some h -> h_jump_host h = ""%string \/ h_is_host h = false) ->
  jump_loop E order valid st = (valid, st).
Proof.
  intros Hn. induction order as [|k ks IH]; [done|]. cbn [jump_loop]. unfold jump_step.
  destruct (hosts st !! k) as [h|] eqn:Hk; [|done].
  destruct (Hn k h Hk) as [Hj|Hi].
  - rewrite Hj. done.
  - rewrite Hi, andb_false_r. done.
Qed.

(** X9. When no host both has a jump host and has isHost set (is used
    by a tunnel),
    validateJumpHosts returns true and changes nothing. *)
Theorem jump_hosts_noop E order st :
  (forall k h, hosts st !! k = Some h -> h_jump_host h = ""%string \/ h_is_host h = false) ->
  validate_jump_hosts E order st = (true, st).
Proof. apply jump_loop_noop. Qed.

(** X7. The pruning at the end of Configuration.Validate keeps a host
    exactly when isHost or isJumpHost is set on it, and keeps it unchanged. *)
Theorem prune_unused_hosts st k h :
  hosts (prune_unused st) !! k = Some h <->
  hosts st !! k = Some h /\ (h_is_host h || h_is_jump_host h) = true.
Proof. apply prune_lookup. Qed.

(** X21. Host.Validate panics exactly when one of its two os.Stat calls
    fails with an error other than not-exist: for the known_hosts file
    when it is not yet in hostKeysMap, or for the identity file when it is
    not yet in identityMap. The earlier steps do not touch either map. *)
Theorem host_validate_panics E du h st :
  host_validate E du h st = None <->
  (host_keys st !! trim_space (h_known_hosts h) = None /\
   env_known_hosts E (trim_space (h_known_hosts h)) = FileStatError) \/
  ((trim_space (h_identity h) ∉ identities st) /\
   env_identity E (trim_space (h_identity h)) (trim_space (h_passphrase h)) = FileStatError).
Proof.
  unfold host_validate. cbv zeta.
  set (k := trim_space (h_known_hosts h)). set (idn := trim_space (h_identity h)).
  next_state v1 s1 E1.
  assert (host_keys s1 = host_keys st /\ identities s1 = identities st) as [K1 I1]
    by (revert E1; case_match; intros; simplify_eq/=; done).
  clear E1.
  next_state v2 s2 E2.
  assert (host_keys s2 = host_keys st /\ identities s2 = identities st) as [K2 I2]
    by (revert E2; case_match; intros; simplify_eq/=; auto).
  clear E2.
  next_state u3 s3 E3.
  assert (host_keys s3 = host_keys st /\ identities s3 = identities st) as [K3 I3]
    by (revert E3; case_match; intros; simplify_eq/=; auto).
  clear E3.
  rewrite K3.
  destruct (host_keys st !! k) as [c|] eqn:Hk;
    [|destruct (env_known_hosts E k) eqn:Hr]; cbn iota beta.
  all: try (split; [intros _; left; split; reflexivity|reflexivity]).
  all: next_state v5 s5 E5.
  all: assert (identities s5 = identities st) as I5
         by (revert E5; case_match; intros; simplify_eq/=; congruence).
  all: clear E5; rewrite I5.
  all: destruct (decide (idn ∈ identities st)) as [Hin|Hin];
         [|destruct (env_identity E idn (trim_space (h_passphrase h))) eqn:Hi]; cbn iota beta.
  all: try (split; [intros _; right; split; [exact Hin|reflexivity]|reflexivity]).
  all: split; [intros Hc; exfalso; revert Hc; repeat case_match; discriminate
              |intros [[Ha Hb]|[Ha Hb]]; exfalso; first [congruence|contradiction]].
Qed.

(** Host B validated in a state holding its address. *)
Lemma host_validate_registers_witness :
  let h := host_b in let st := host_b_state in
  let v := (default (false, st) host_b_result).1 in
  let st' := (default (false, st) host_b_result).2 in
  host_b_result = Some (v, st') /\
  (exists h', hosts st' !! trim_space (h_name h) = Some h' /\ h_name h' = trim_space (h_name h) /\
     h_address h' = h_address h /\ h_jump_host h' = h_jump_host h /\
     h_is_host h' = h_is_host h /\ h_is_jump_host h' = h_is_jump_host h) /\
  (forall k, k <> trim_space (h_name h) -> hosts st' !! k = hosts st !! k) /\
  (trim_space (h_name h) = ""%string \/ is_Some (hosts st !! trim_space (h_name h)) \/
   trim_space (h_identity h) = ""%string \/ h_address h = None \/
   h_jump_host h = trim_space (h_name h) -> v = false).
Proof.
  intros h st v st'. split; [vm_compute; reflexivity|].
  apply (host_validate_registers sample_env "me" h st v st').
  vm_compute. reflexivity.
Defined.

(** The tunnel "web" validated after hosts A and B. *)
Lemma tunnel_validate_registers_witness :
  let t := jb_tunnel in let st := jb_entries [] in
  let v := web_result.1 in let st' := web_result.2 in
  (exists l, tunnels st' !! trim_space (t_name t) =
     Some (mkTunnel (trim_space (t_name t)) l (trim_space (t_host t)) (t_forward t))) /\
  (forall k, k <> trim_space (t_name t) -> tunnels st' !! k = tunnels st !! k) /\
  (trim_space (t_name t) = ""%string \/ is_Some (tunnels st !! trim_space (t_name t)) \/
   t_forward t = None \/ trim_space (t_host t) = ""%string \/
   hosts st !! trim_space (t_host t) = None -> v = false).
Proof.
  intros t st v st'. apply (tunnel_validate_registers sample_env t st v st').
  apply surjective_pairing.
Defined.

(** Configuration.Validate on hosts A and B (B with jump host A) and the
    tunnel "web" through B. *)
Lemma config_keeps_targeted_witness :
  let st' := (default (false, jb_state) jb_config_result).2 in
  jb_config_result = Some (true, st') /\
  map_Forall (fun _ h => h_is_host h = true) (hosts st') /\
  is_Some (hosts st' !! "A") /\ is_Some (hosts st' !! "B").
Proof.
  intros st'. split; [vm_compute; reflexivity|].
  split; [|split; vm_compute; eexists; reflexivity].
  intros k h.
  apply (config_keeps_targeted sample_env "me" jb_hosts [jb_tunnel] key_order jb_state true st').
  - repeat constructor.
  - apply map_Forall_empty.
  - vm_compute. reflexivity.
Defined.

(** Hosts A and B (B with jump host A) without tunnels. *)
Lemma jump_hosts_noop_witness :
  validate_jump_hosts sample_env (key_order (jb_entries [])) (jb_entries []) = (true, jb_entries []).
Proof.
  apply (jump_hosts_noop sample_env (key_order (jb_entries [])) (jb_entries [])).
  change (map_Forall (fun _ h => h_jump_host h = ""%string \/ h_is_host h = false)
            (hosts (jb_entries []))).
  apply (bool_decide_unpack _). vm_compute. reflexivity.
Defined.

End ConfigProps.

Module WireProps.
Import GoStr Json Wire JsonFacts.

Lemma decode_high b0 rest c n :
  decode_rune (b0 :: rest) = (c, n) ->
  ((c =? rune_error) && (n =? 1)%nat) = false ->
  128 <= b0 -> Forall (fun b => 128 <= b) (take n (b0 :: rest)).
Proof.
  intros Hd Hv Hb. unfold decode_rune in Hd.
  repeat (case_match; simplify_eq); try (vm_compute in Hv; discriminate).
  all: zbool; try lia; simpl; repeat constructor; lia.
Qed.

Lemma u_escape_nonzero r : Forall (fun b => b <> 0) (u_escape r).
Proof.
  unfold u_escape, hex_digit.
  repeat constructor; try lia; case_match; zbool;
    match goal with |- context [?x mod 16] => pose proof (Z.mod_pos_bound x 16) end; lia.
Qed.

Lemma enc_ascii_nonzero b : Forall (fun b => b <> 0) (enc_ascii b).
Proof.
  unfold enc_ascii, html_safe.
  repeat case_match; zbool; subst; try apply u_escape_nonzero; repeat constructor; lia.
Qed.

Lemma enc_str_nonzero fuel s : Forall (fun b => b <> 0) (enc_str fuel s).
Proof.
  revert s. induction fuel as [|f IH]; intros s; [constructor|].
  destruct s as [|b r]; [constructor|]. cbn [enc_str].
  case_match; [apply Forall_app; auto using enc_ascii_nonzero|].
  zbool. destruct (decode_rune (b :: r)) as [c size] eqn:Hd.
  destruct ((c =? rune_error) && (size =? 1)%nat) eqn:Hv;
    [apply Forall_app; auto using u_escape_nonzero|].
  case_match; apply Forall_app; auto using u_escape_nonzero.
  split; [|auto]. eapply Forall_impl; [apply (decode_high b r c size Hd Hv); lia|]. simpl. lia.
Qed.

Lemma uint_bytes_nonzero d : Forall (fun b => b <> 0) (uint_bytes d).
Proof. induction d; simpl; repeat constructor; auto; lia. Qed.

Lemma encode_int_nonzero z : Forall (fun b => b <> 0) (encode_int z).
Proof.
  unfold encode_int. apply Forall_app; split; [case_match; repeat constructor; lia|].
  apply uint_bytes_nonzero.
Qed.

Lemma encode_string_nonzero s : Forall (fun b => b <> 0) (encode_string s).
Proof.
  unfold encode_string. repeat (apply Forall_app; split); repeat constructor; try lia.
  apply enc_str_nonzero.
Qed.

Lemma encode_stats_nonzero t : Forall (fun b => b <> 0) (encode_stats t).
Proof.
  unfold encode_stats, json_key. rewrite !Forall_app. repeat split.
  all: lazymatch goal with
       | |- Forall _ (encode_string _) => apply encode_string_nonzero
       | |- Forall _ (encode_int _) => apply encode_int_nonzero
       | |- Forall _ [_] => constructor; [lia | constructor]
       end.
Qed.

Lemma marshal_no_zero l : Forall (fun b => b <> 0) (marshal l).
Proof.
  unfold marshal. rewrite !Forall_app. split; [repeat constructor; lia|].
  split; [|repeat constructor; lia].
  induction l as [|x [|y l] IH]; [constructor|apply encode_stats_nonzero|].
  cbn [map join_elems] in *. rewrite !Forall_app.
  split; [apply encode_stats_nonzero|]. split; [repeat constructor; lia|]. exact IH.
Qed.

Lemma blocks_go_fuel f g s :
  (length s <= f)%nat -> (length s <= g)%nat -> blocks_go f s = blocks_go g s.
Proof.
  revert g s. induction f as [|f IH]; intros g s Hf Hg.
  - destruct s; [destruct g; reflexivity|simpl in Hf; lia].
  - destruct s as [|b r]; [destruct g; reflexivity|].
    destruct g as [|g]; [simpl in Hg; lia|]. cbn [blocks_go]. f_equal.
    apply IH; rewrite length_drop; simpl in *; lia.
Qed.

Lemma blocks_go_enough f s : (length s <= f)%nat -> blocks_go f s = blocks s.
Proof. intros Hl. unfold blocks. apply blocks_go_fuel; lia. Qed.

Lemma blocks_cons s : s <> [] -> blocks s = take 256 s :: blocks (drop 256 s).
Proof.
  intros Hs. unfold blocks at 1. destruct s as [|b r]; [done|]. cbn [length blocks_go].
  rewrite blocks_go_enough; [reflexivity|]. rewrite length_drop. simpl. lia.
Qed.

Lemma blocks_app a b : Z.of_nat (length a) mod 256 = 0 -> blocks (a ++ b) = blocks a ++ blocks b.
Proof.
  remember (length a) as n eqn:Hn. revert a Hn.
  induction n as [n IH] using lt_wf_ind. intros a Hn Hm.
  destruct a as [|x r]; [reflexivity|].
  rewrite (blocks_cons (x :: r)), blocks_cons by done.
  assert (H256 : (256 <= length (x :: r))%nat).
  { simpl in *. Z.div_mod_to_equations. lia. }
  rewrite take_app_le, drop_app_le by lia. cbn [app].
  rewrite (IH (length (drop 256 (x :: r)))); [reflexivity| | |].
  - rewrite length_drop. lia.
  - reflexivity.
  - rewrite length_drop, Nat2Z.inj_sub by lia. rewrite <- Hn.
    rewrite Zminus_mod, Hm. reflexivity.
Qed.

Lemma pad_frame_split u :
  exists k, pad_frame u = u ++ repeat 0 k /\ (1 <= k <= 256)%nat /\
            Z.of_nat (length (pad_frame u)) mod 256 = 0.
Proof.
  exists (Z.to_nat (256 - Z.of_nat (length u) mod 256)).
  pose proof (Z.mod_pos_bound (Z.of_nat (length u)) 256).
  split; [reflexivity|]. split; [lia|].
  unfold pad_frame. rewrite length_app, repeat_length, Nat2Z.inj_add, Z2Nat.id by lia.
  replace (Z.of_nat (length u) + (256 - Z.of_nat (length u) mod 256))
    with (256 * (Z.of_nat (length u) / 256 + 1)) by (Z.div_mod_to_equations; lia).
  rewrite Z.mul_comm, Z.mod_mul; lia.
Qed.

Lemma receive_frame m ts l n acc s bs rest :
  Forall (fun b => b <> 0) m -> parse_frame (pad_frame m) = Some ts -> rows ts = Some l ->
  length s = (256 * S n)%nat -> acc ++ s = pad_frame m -> (length bs <= 256)%nat ->
  exists bs', (length bs' <= 256)%nat /\
    receive_loop bs acc (map ReadData (blocks s) ++ rest) =
    (let '(out, e) := receive_loop bs' [] rest in (l :: out, e)).
Proof.
  intros Hm Hp Hr. destruct (pad_frame_split m) as (k & HF & Hk & _).
  revert acc s bs. induction n as [|n IH]; intros acc s bs Hs Has Hbs.
  all: assert (Hne : s <> []) by (intros ->; simpl in Hs; lia).
  all: rewrite blocks_cons by done; cbn [map app receive_loop].
  all: assert (Hd : length (take 256 s) = 256%nat) by (rewrite length_take; lia).
  all: rewrite Hd, (drop_ge bs) by lia; rewrite List.app_nil_r.
  all: change (256 =? 0)%nat with false; cbv iota.
  all: change (256 - 1)%nat with 255%nat.
  all: assert (Hlen : (length acc + length s = length m + k)%nat)
         by (rewrite <- length_app, Has, HF, length_app, repeat_length; lia).
  all: assert (Hnth : nth 255 (take 256 s) 1 = nth (length acc + 255) (pad_frame m) 1)
         by (rewrite <- Has, app_nth2_plus, nth_firstn; reflexivity).
  all: rewrite Hnth.
  - assert (Hs0 : drop 256 s = []) by (apply drop_ge; lia).
    rewrite (take_ge s) by lia.
    assert (Hz : nth (length acc + 255) (pad_frame m) 1 = 0).
    { rewrite HF, app_nth2 by lia. apply nth_repeat_lt. lia. }
    rewrite Hz, Z.eqb_refl, Has, Hp, Hr, Hs0. cbn [blocks blocks_go length map app].
    exists s. split; [lia|]. reflexivity.
  - assert (Hnz : nth (length acc + 255) (pad_frame m) 1 <> 0).
    { rewrite HF, app_nth1 by lia. apply (proj1 (List.Forall_nth _ _) Hm). lia. }
    apply Z.eqb_neq in Hnz. rewrite Hnz.
    apply (IH (acc ++ take 256 s) (drop 256 s)).
    + rewrite length_drop. lia.
    + rewrite <- app_assoc, take_drop. done.
    + lia.
Qed.

Lemma parse_publish l : Forall stats_ok l -> parse_frame (publish l) = Some (map Some l).
Proof.
  intros Hok. unfold parse_frame, publish. rewrite until_zero_pad by apply marshal_no_zero.
  unfold unmarshal. rewrite parse_json_marshal by done. apply to_stats_list_json, Hok.
Qed.

Lemma rows_some l : rows (map Some l) = Some l.
Proof. induction l as [|t l IH]; [done|]. simpl. rewrite IH. done. Qed.

Lemma receive_published_go ls bs :
  Forall (Forall stats_ok) ls -> (length bs <= 256)%nat ->
  receive_loop bs [] (map ReadData (blocks (concat (map publish ls)))) = (ls, Waiting).
Proof.
  intros Hok. revert bs.
  induction Hok as [|l ls Hl Hls IH]; intros bs Hbs; [reflexivity|].
  destruct (pad_frame_split (marshal l)) as (k & HF & Hk & Hmod).
  cbn [map concat]. rewrite blocks_app by exact Hmod. rewrite map_app.
  assert (Hn : exists n, length (publish l) = (256 * S n)%nat).
  { exists (Z.to_nat (Z.of_nat (length (publish l)) / 256) - 1)%nat.
    assert (length (publish l) <> 0%nat)
      by (unfold publish; rewrite HF, length_app, repeat_length; lia).
    unfold publish in *. Z.div_mod_to_equations. lia. }
  destruct Hn as [n Hn].
  destruct (receive_frame (marshal l) (map Some l) l n [] (publish l) bs
              (map ReadData (blocks (concat (map publish ls)))))
    as (bs' & Hbs' & ->); try done.
  - apply marshal_no_zero.
  - apply parse_publish, Hl.
  - apply rows_some.
  - rewrite IH by done. reflexivity.
Qed.

(** X12. When the publisher writes the frames of successive broadcasts,
    whose records have valid UTF-8 names and int64 counters, on the
    connection and every Read of the subscriber fills its 256-byte
    buffer, receiveStats prints the records of each broadcast, in order,
    and then waits for more. *)
Theorem receive_published ls :
  Forall (Forall stats_ok) ls ->
  receive_stats (map ReadData (blocks (concat (map publish ls)))) = (ls, Waiting).
Proof. intros Hok. apply receive_published_go; [done|]. rewrite repeat_length. lia. Qed.

(** X10. The JSON text that writeUpdate marshals never contains a zero
    byte, so the zero padding of a frame can be told from its content. *)
Theorem marshal_nonzero l : Forall (fun b => b <> 0) (marshal l).
Proof. apply marshal_no_zero. Qed.

(** X11. writeUpdate pads the marshalled text with 1 to 256 zero bytes, up
    to the next multiple of 256 (a full block of zeros when the text
    already ends on one). *)
Theorem pad_frame_shape u :
  exists k, pad_frame u = u ++ repeat 0 k /\ (1 <= k <= 256)%nat /\
            Z.of_nat (length (pad_frame u)) mod 256 = 0.
Proof. apply pad_frame_split. Qed.

(** Two broadcasts: one whose frame spans two blocks, then an empty one. *)
Lemma receive_published_witness :
  let ls := [[mkStats (repeat 97 300) 1 2 3; mkStats [65] 4 5 6]; []] in
  receive_stats (map ReadData (blocks (concat (map publish ls)))) = (ls, Waiting).
Proof.
  intros ls. apply (receive_published ls).
  unfold ls, stats_ok, byte_ok. apply (bool_decide_unpack _). vm_compute. reflexivity.
Defined.

End WireProps.

Module BroadcastProps.
Import Broadcast.

Lemma handle_ok st t e : pending_ok st -> pending_ok (handle st t e).
Proof.
  unfold pending_ok, handle, on_signal, on_subscribe, interval, settle.
  destruct e; simpl; [|done]. repeat case_match; simplify_eq/=; auto; lia.
Qed.

Lemma fire_ok st w : pending_ok (fire st w).
Proof. done. Qed.

Lemma handle_last st t e : last_broadcast (handle st t e) = last_broadcast st.
Proof.
  unfold handle, on_signal, on_subscribe. destruct e; simpl; [|done]. repeat case_match; done.
Qed.

Lemma run_spaced st evs : pending_ok st -> spaced (last_broadcast st) (run st evs).
Proof.
  revert st. induction evs as [|[t e] evs IH]; intros st Hst; simpl.
  - unfold pending_ok in Hst. destruct (pending st); simpl; auto.
  - unfold pending_ok in Hst. destruct (pending st) as [w|] eqn:Hp.
    + destruct (w <=? t); simpl.
      * split; [done|].
        pose proof (IH (handle (fire st w) t e) (handle_ok _ _ _ (fire_ok st w))) as H.
        rewrite handle_last in H. exact H.
      * rewrite <- (handle_last st t e). apply IH, handle_ok. unfold pending_ok. rewrite Hp. done.
    + rewrite <- (handle_last st t e). apply IH, handle_ok. unfold pending_ok. rewrite Hp. done.
Qed.

(** X13. Every broadcast of statsBroadcaster comes at least the interval
    (5 s) after the previous one, and the first no earlier than the start. *)
Theorem broadcasts_spaced t0 evs : spaced (t0 - interval) (run (start t0) evs).
Proof. apply (run_spaced (start t0)). done. Qed.

Definition pend (st : BState) : nat := if pending st then 1 else 0.

Lemma run_count st evs : (length (run st evs) <= signals evs + pend st)%nat.
Proof.
  revert st. induction evs as [|[t e] evs IH]; intros st; simpl.
  - unfold pend. destruct (pending st); simpl; lia.
  - assert (Hh : forall s, (pend (handle s t e) <= pend s + (if e then 1 else 0))%nat).
    { intros s. unfold pend, handle, on_signal, on_subscribe.
      destruct e; simpl; [|lia]. repeat case_match; simpl; simplify_eq/=; lia. }
    assert (Hs : pend st = if pending st then 1%nat else 0%nat) by done.
    destruct (pending st) as [w|] eqn:Hp; [destruct (w <=? t)|]; simpl.
    + specialize (IH (handle (fire st w) t e)). specialize (Hh (fire st w)).
      unfold pend in Hh at 2. simpl in Hh. destruct e; simpl in *; lia.
    + specialize (IH (handle st t e)). specialize (Hh st). destruct e; simpl in *; lia.
    + specialize (IH (handle st t e)). specialize (Hh st). destruct e; simpl in *; lia.
Qed.

(** X14. statsBroadcaster never broadcasts more often than it receives
    signals. *)
Theorem broadcasts_le_signals t0 evs : (length (run (start t0) evs) <= signals evs)%nat.
Proof. pose proof (run_count (start t0) evs). unfold pend in H. simpl in H. lia. Qed.

End BroadcastProps.

Module RelayProps.
Import GoStr Json Relay RelayFacts.

(** X15. The loop of copy ends at an iteration with a read error, or with
    bytes read and then a write error or a short write: the iterations
    after it are never run. *)
Theorem copy_stops read s r rs :
  stops r = true -> copy_loop read s (r :: rs) = copy_loop read s [r].
Proof.
  unfold stops. intros Hs. simpl. unfold copy_step.
  destruct (0 <? nr r) eqn:Hnr; simpl in Hs.
  - destruct ((nw r <? 0) || (nr r <? nw r)) eqn:Hbad; [reflexivity|].
    destruct (write_err r); [reflexivity|].
    destruct (nr r =? nw r) eqn:He; simpl; [|reflexivity].
    apply Z.eqb_eq in He. rewrite He, Z.eqb_refl in Hs. simpl in Hs. rewrite orb_false_r in Hs.
    rewrite Hs. reflexivity.
  - rewrite orb_false_r in Hs. rewrite Hs. reflexivity.
Qed.

(** X16. Over iterations that read some bytes and write all of them
    without errors, the loop adds the bytes read to its counter (with
    int64 wrap-around), reports every byte delivered, and changes no other
    field. *)
Theorem copy_clean_rounds read s rs :
  int64_min <= counter read s <= int64_max -> Forall clean rs ->
  exists s', copy_loop read (Some s) rs = (Some s', total_delivered rs) /\
    counter read s' = wrap64 (counter read s + total_read rs) /\
    counter (negb read) s' = counter (negb read) s /\
    ts_name s' = ts_name s /\ ts_connections s' = ts_connections s.
Proof.
  intros Hc Hok. revert s Hc. induction Hok as [|r rs [Hnr [Hnw [Hwe Hre]]] _ IH]; intros s Hc.
  - exists s. simpl. rewrite Z.add_0_r, wrap64_id by done. auto.
  - cbn [copy_loop]. unfold copy_step.
    assert (Hnr' : (0 <? nr r) = true) by (apply Z.ltb_lt; lia).
    assert (Hb : ((nw r <? 0) || (nr r <? nw r)) = false)
      by (apply orb_false_iff; split; apply Z.ltb_ge; lia).
    rewrite Hnr', Hb, Hwe, Hnw, Z.eqb_refl, Hre. cbn.
    destruct (IH (count read s (nr r))) as (s' & Hl & H1 & H2 & H3 & H4).
    { rewrite counter_count. unfold wrap64, int64_min, int64_max.
      pose proof (Z.mod_pos_bound (counter read s + nr r + 2 ^ 63) (2 ^ 64)).
      replace (2 ^ 64) with (2 * 2 ^ 63) in * by reflexivity.
      assert (0 < 2 ^ 63) by reflexivity. split; lia. }
    rewrite Hl. exists s'. split; [reflexivity|].
    rewrite H1, counter_count, wrap64_add, H2, other_counter_count, H3, H4.
    unfold total_read in *. destruct read; simpl; repeat split; f_equal; lia.
Qed.

(** A short write (4 of 10 bytes) followed by a full iteration. *)
Lemma copy_stops_witness :
  copy_loop true (Some zero_stats) (mkRound 10 false 4 false 4 :: [full_round])
    = copy_loop true (Some zero_stats) [mkRound 10 false 4 false 4].
Proof. apply (copy_stops true (Some zero_stats) (mkRound 10 false 4 false 4) [full_round]). reflexivity. Defined.

(** Two full iterations from zero counters. *)
Lemma copy_clean_rounds_witness :
  exists s', copy_loop true (Some zero_stats) [full_round; full_round]
      = (Some s', total_delivered [full_round; full_round]) /\
    counter true s' = wrap64 (counter true zero_stats + total_read [full_round; full_round]) /\
    counter (negb true) s' = counter (negb true) zero_stats /\
    ts_name s' = ts_name zero_stats /\ ts_connections s' = ts_connections zero_stats.
Proof.
  apply (copy_clean_rounds true zero_stats [full_round; full_round]).
  - unfold int64_min, int64_max. simpl. lia.
  - unfold clean. apply (bool_decide_unpack _). vm_compute. reflexivity.
Defined.

End RelayProps.

Module CliProps.
Import GoStr Cli AddrProps.

Lemma parse_int32_nonneg v i :
  dash_prefix v = false -> parse_int32 v = Some i -> 0 <= i <= int32_max.
Proof.
  unfold parse_int32, dash_prefix. intros Hd.
  assert (Hb : forall n : N, 0 <= Z.of_N n) by lia.
  destruct v as [|c r]; [done|].
  destruct c as [[] [] [] [] [] [] [] []]; try discriminate Hd;
    repeat case_match; simplify_eq; intros; simplify_eq; zify; unfold int32_max in *; try lia.
Qed.

Lemma parse_args_port args f f' :
  0 <= stats_port f <= int32_max -> parse_args args f = Proceed f' ->
  0 <= stats_port f' <= int32_max.
Proof.
  remember (length args) as n eqn:Hn. revert args f Hn.
  induction n as [n IH] using lt_wf_ind. intros args f Hn Hf.
  destruct args as [|a rest]; simpl; [congruence|].
  repeat case_match; intros Hp; try discriminate Hp; subst;
    (eapply IH; [|reflexivity| |exact Hp]); simpl; try lia; try exact Hf.
  eapply parse_int32_nonneg; eassumption.
Qed.

(** X17. When the command line does not end the process, statsPort is in
    [0, 2^31 - 1]: the value -1 that disables the stats listener is never
    reached. *)
Theorem cli_port_range args c f :
  parse_command_line args (default_flags c) = Proceed f ->
  0 <= stats_port f <= int32_max /\ stats_enabled (stats_port f) = true.
Proof.
  unfold parse_command_line. destruct (parse_args args (default_flags c)) as [|f1] eqn:Hp;
    [discriminate|].
  assert (Hr : 0 <= stats_port f1 <= int32_max)
    by (eapply parse_args_port; [|exact Hp]; simpl; unfold int32_max; lia).
  repeat case_match; intros; simplify_eq. split; [done|].
  unfold stats_enabled. apply negb_true_iff, Z.eqb_neq. lia.
Qed.

Lemma parse_int32_itoa n : 0 <= n ->
  dash_prefix (itoa n) = false /\
  parse_int32 (itoa n) = if n <=? int32_max then Some n else None.
Proof.
  intros Hn. unfold itoa. replace (n <? 0) with false by (symmetry; apply Z.ltb_ge; lia).
  destruct (JsonFacts.to_uint_shape (Z.to_N n)) as [Hnil _].
  pose proof (digits_acc_uint (N.to_uint (Z.to_N n))) as Hd.
  rewrite DecimalN.Unsigned.of_to in Hd.
  destruct (N.to_uint (Z.to_N n)) eqn:Hu; [done|..]; cbn in Hd |- *; rewrite Hd, Z2N.id by lia;
    (split; [reflexivity|]);
    (replace (int32_min <=? n) with true by (symmetry; apply Z.leb_le; unfold int32_min; lia));
    reflexivity.
Qed.

Lemma itoa_neg n : n < 0 -> dash_prefix (itoa n) = true.
Proof. intros Hn. unfold itoa. replace (n <? 0) with true by (symmetry; apply Z.ltb_lt; lia). done. Qed.

(** X18. "-p" followed by the decimal form of n sets statsPort to n when
    0 <= n < 2^31; otherwise the process ends with status 1 (a negative
    value starts with "-" and is taken for a missing parameter). *)
Theorem cli_port_arg c n :
  parse_command_line ["-p"; itoa n]%string (default_flags c) =
  if (0 <=? n) && (n <=? int32_max) then Proceed (mkFlags false false false c n) else Exit 1.
Proof.
  unfold parse_command_line. cbn [parse_args String.eqb orb Ascii.eqb Bool.eqb].
  destruct (Z.leb_spec 0 n) as [Hn|Hn].
  - destruct (parse_int32_itoa n Hn) as [-> ->]. simpl.
    destruct (n <=? int32_max); reflexivity.
  - rewrite itoa_neg by lia. reflexivity.
Qed.

Lemma parse_args_help args f :
  help_flag f = true ->
  parse_args args f = Exit 1 \/ exists f', parse_args args f = Proceed f' /\ help_flag f' = true.
Proof.
  remember (length args) as n eqn:Hn. revert args f Hn.
  induction n as [n IH] using lt_wf_ind. intros args f Hn Hf.
  destruct args as [|a rest]; simpl; [eauto|].
  repeat case_match; subst; auto; (eapply IH; [|reflexivity|]); simpl; try lia; try exact Hf; done.
Qed.

(** X19. An argument that is no case of the switch always ends the
    process, with status 0 (help) or 1. *)
Theorem cli_unknown_exits a rest f :
  ~ In a switch_cases ->
  parse_command_line (a :: rest) f = Exit 0 \/ parse_command_line (a :: rest) f = Exit 1.
Proof.
  intros Ha. unfold parse_command_line. cbn [parse_args].
  assert (Hne : forall b, In b switch_cases -> String.eqb a b = false)
    by (intros b Hb; apply String.eqb_neq; intros ->; done).
  rewrite !Hne by (simpl; tauto). cbn [orb].
  destruct (parse_args_help rest (set_help f) eq_refl) as [->|(f' & -> & ->)]; auto.
Qed.

(** ferret -p 8080 -v *)
Lemma cli_port_range_witness :
  0 <= stats_port (mkFlags false false true "ferret.yaml" 8080) <= int32_max /\
  stats_enabled (stats_port (mkFlags false false true "ferret.yaml" 8080)) = true.
Proof.
  apply (cli_port_range ["-p"; "8080"; "-v"]%string "ferret.yaml").
  vm_compute. reflexivity.
Defined.

(** ferret --port *)
Lemma cli_unknown_exits_witness :
  parse_command_line ["--port"]%string (default_flags "ferret.yaml") = Exit 0 \/
  parse_command_line ["--port"]%string (default_flags "ferret.yaml") = Exit 1.
Proof.
  apply (cli_unknown_exits "--port" [] (default_flags "ferret.yaml")).
  simpl. intros H. repeat destruct H as [H|H]; try discriminate H. exact H.
Defined.

End CliProps.

Module SessionProps.
Import GoStr Config Session AddrProps Samples.

Lemma ascii_of_app s1 s2 :
  list_ascii_of_string (s1 +:+ s2) = list_ascii_of_string s1 ++ list_ascii_of_string s2.
Proof. induction s1; simpl; [done|]. rewrite IHs1. done. Qed.

Lemma index_of_none c l : Forall (fun ch => ch <> c) l -> index_of c l = None.
Proof.
  induction 1 as [|x l Hx _ IH]; [done|]. simpl. rewrite IH.
  destruct (Ascii.eqb_spec x c); done.
Qed.

Lemma index_of_app c l1 l2 :
  Forall (fun ch => ch <> c) l1 -> index_of c (l1 ++ c :: l2) = Some (length l1).
Proof.
  induction 1 as [|x l Hx _ IH]; simpl; [rewrite Ascii.eqb_refl; done|]. rewrite IH.
  destruct (Ascii.eqb_spec x c); done.
Qed.

Lemma has_none c l : Forall (fun ch => ch <> c) l -> has c l = false.
Proof. intros H. unfold has. rewrite index_of_none; done. Qed.

Lemma match_bracket {A} (l : list ascii) (a : list ascii -> A) (b : A) :
  hd_error l <> Some "["%char ->
  match l with "["%char :: r => a r | _ => b end = b.
Proof.
  destruct l as [|c r]; [done|]. simpl.
  destruct c as [[] [] [] [] [] [] [] []]; done.
Qed.

Lemma split_host_port_join host ps :
  no_char ":" host -> no_char "[" host -> no_char "]" host ->
  no_char ":" ps -> no_char "[" ps -> no_char "]" ps ->
  split_host_port (host +:+ ":" +:+ ps) = Some (host, ps).
Proof.
  unfold no_char. intros H1 H2 H3 P1 P2 P3. unfold split_host_port.
  rewrite !ascii_of_app. cbn [list_ascii_of_string app].
  set (h := list_ascii_of_string host) in *. set (p := list_ascii_of_string ps) in *.
  unfold last_index_of. rewrite rev_app_distr. cbn [rev]. rewrite <- app_assoc. cbn [app].
  rewrite index_of_app by (apply Forall_rev; done).
  rewrite length_app, length_rev. cbn [length].
  replace (length h + S (length p) - 1 - length p)%nat with (length h) by lia.
  rewrite match_bracket.
  2:{ destruct h as [|c t]; simpl; [congruence|]. inversion H2; congruence. }
  rewrite take_app_length, (has_none ":" h) by done. cbn [drop].
  assert (Hall : forall c, Forall (fun ch => ch <> c) h -> Forall (fun ch => ch <> c) p ->
                 c <> ":"%char -> has c (h ++ ":"%char :: p) = false).
  { intros c Hh Hp Hc. apply has_none. apply Forall_app; split; [done|]. constructor; done. }
  rewrite !Hall by (done || chars).
  rewrite drop_app_ge by lia. replace (S (length h) - length h)%nat with 1%nat by lia.
  cbn [drop]. unfold h, p. rewrite drop_0, !string_of_list_ascii_of_string. done.
Qed.

Lemma digits_itoa n : 0 <= n ->
  itoa n <> ""%string /\ digits_acc 0 (itoa n) = Some (Z.to_N n).
Proof.
  intros Hn. unfold itoa. replace (n <? 0) with false by (symmetry; apply Z.ltb_ge; lia).
  destruct (JsonFacts.to_uint_shape (Z.to_N n)) as [Hnil _].
  rewrite digits_acc_uint, DecimalN.Unsigned.of_to. split; [|done].
  destruct (N.to_uint (Z.to_N n)); done.
Qed.

Lemma parse_uint16_itoa n : 0 <= n ->
  parse_uint16 (itoa n) = if n <=? 65535 then Some n else None.
Proof.
  intros Hn. destruct (digits_itoa n Hn) as [Hne Hd]. unfold parse_uint16.
  rewrite (proj2 (String.eqb_neq _ _) Hne), Hd, Z2N.id by lia. reflexivity.
Qed.

(** X20. On a host with an open session, Host.Dial at "host:port" (a host
    without ':', '[' or ']') opens a channel to that host and port when
    the port is at most 65535 and the server accepts; any larger port
    fails without contacting the server. *)
Theorem host_dial_port accept h c host n :
  h_client h = Some c ->
  no_char ":" host -> no_char "[" host -> no_char "]" host -> 0 <= n ->
  host_dial accept h (host +:+ ":" +:+ itoa n) =
    if n <=? 65535 then
      (if accept c host n then Returns (Some (host, n)) true else Returns None false)
    else Returns None false.
Proof.
  intros Hc H1 H2 H3 Hn. unfold host_dial, client_dial. rewrite Hc.
  rewrite split_host_port_join by (done || apply no_char_itoa; chars).
  rewrite parse_uint16_itoa by done.
  destruct (n <=? 65535); [|done]. destruct (accept c host n); done.
Qed.

(** Dialling "10.0.0.5:22" on an open session whose server accepts. *)
Lemma host_dial_port_witness :
  host_dial (fun _ _ _ => true) opened_host ("10.0.0.5" +:+ ":" +:+ itoa 22) =
    if 22 <=? 65535 then
      (if (fun _ _ _ => true) 0%N "10.0.0.5"%string 22 then Returns (Some ("10.0.0.5"%string, 22)) true
       else Returns None false)
    else Returns None false.
Proof.
  apply (host_dial_port (fun _ _ _ => true) opened_host 0%N "10.0.0.5" 22).
  - reflexivity.
  - unfold no_char. simpl. repeat constructor; discriminate.
  - unfold no_char. simpl. repeat constructor; discriminate.
  - unfold no_char. simpl. repeat constructor; discriminate.
  - lia.
Defined.

End SessionProps.
